(** * Pooch: the fetch decision engine and the verified download pipeline

    A shallow embedding of [pooch/core.py]: the [Pooch] class ([fetch],
    [get_url], [load_registry], [_assert_file_in_registry]) and the module
    functions [download_action] and [stream_download].

    Python code that raises and mutates is embedded in a state-and-error
    monad over a [World]: the Pooch instance (its registry and urls
    dictionaries are mutable), the file system, the logger output and the
    record of calls made to the pluggable collaborators (downloaders,
    processors, [choose_downloader]).  State changes made before an
    exception is raised persist, as they do in Python. *)

From Stdlib Require Import Ascii String.
From stdpp Require Import base option list strings gmap sets.

Local Open Scope string_scope.
Local Open Scope list_scope.

(** ** Paths as strings

    Paths are kept as strings, as [str(path)] gives them.  They are assumed
    normalised; [/] separates components. *)

Module PathStr.

(** The proper prefixes of [s] that end right before a [/], outermost
    first, with [acc] the text already consumed. *)
Fixpoint prefixes_at_slash (acc s : string) : list string :=
  match s with
  | EmptyString => []
  | String c s' =>
      (if Ascii.eqb c "/" then [acc] else [])
        ++ prefixes_at_slash (acc +:+ String c EmptyString) s'
  end.

(** All ancestor directories of a path; the empty string stands for the
    base the path starts from (the root for an absolute path). *)
Definition ancestors (p : string) : list string := prefixes_at_slash "" p.

(** [Path.parent]: the text before the last separator. *)
Definition parent (p : string) : string := List.last (ancestors p) "".

Fixpoint basename_from (cur s : string) : string :=
  match s with
  | EmptyString => cur
  | String c s' =>
      if Ascii.eqb c "/" then basename_from "" s'
      else basename_from (cur +:+ String c EmptyString) s'
  end.

(** [os.path.basename]: the text after the last separator. *)
Definition basename (p : string) : string := basename_from "" p.

(** [Path / name]. *)
Definition join (dir name : string) : string := dir +:+ "/" +:+ name.

(** [Some rest] when [s] is [pre] followed by [rest]. *)
Fixpoint strip_prefix (pre s : string) : option string :=
  match pre, s with
  | EmptyString, _ => Some s
  | String a pre', String b s' =>
      if Ascii.eqb a b then strip_prefix pre' s' else None
  | String _ _, EmptyString => None
  end.

End PathStr.

(** ** Errors, values and the world *)

(** The failures of the pipeline, named as in the specification's taxonomy.
    In the Python source [NotInRegistry], [UnsupportedAlgorithm] and
    [HashMismatch] are [ValueError]s, [InvalidRegistryEntry] and
    [IOFailure] are [OSError]s. *)
Inductive Error : Type :=
| NotInRegistry (fname : string)
| UnsupportedAlgorithm (alg : string)
| HashMismatch (actual expected : string)
| IOFailure (path : string)
| InvalidRegistryEntry (linenum count : nat) (line : string)
| KeyError (key : string)
| ConnectionFailure
| TransportFailure (status : nat)
| Timeout
| Raised (msg : string).

Inductive Result (A : Type) : Type :=
| Ok (a : A)
| Err (e : Error).
Arguments Ok {A} a.
Arguments Err {A} e.

(** What [fetch] hands back: the path as a string, or whatever a processor
    returned (usually a path or a list of paths). *)
Inductive Value : Type :=
| VNone
| VStr (s : string)
| VList (l : list string).

(** The Pooch instance: [self.path], [self.base_url], [self.registry] and
    [self.urls].  A registry value of [None] is a file without a hash. *)
Record Pooch : Type := mkPooch {
  path : string;
  base_url : string;
  registry : gmap string (option string);
  urls : gmap string string
}.

(** What a downloader did when called: the bytes it left in the output
    file, the lines it logged, and the exception it raised, if any. *)
Record Transfer : Type := mkTransfer {
  written : string;
  logged : list string;
  raised : option Error
}.

(** A downloader is a callable [(url, output_file, pooch)]. *)
Record Downloader : Type := mkDownloader {
  dl_name : string;
  dl_call : string -> string -> option Pooch -> Transfer
}.

(** What a path names on disk: a regular file with its content, or a
    directory. *)
Inductive Node : Type :=
| File (content : string)
| Dir.

Global Instance Node_eq_dec : EqDecision Node.
Proof. solve_decision. Defined.

(** A processor is a callable [(fname, action, pooch)]; it may change files
    of its own and returns a value or raises. *)
Record Processor : Type := mkProcessor {
  proc_name : string;
  proc_call : string -> string -> Pooch ->
              gmap string Node -> gmap string Node * Result Value
}.

(** Calls made to the pluggable collaborators, in order. *)
Inductive Call : Type :=
| CallChooseDownloader (url : string)
| CallDownloader (name url output_file : string) (pup : option Pooch) (t : Transfer)
| CallProcessor (name fname action : string) (pup : Pooch) (r : Result Value).

Record World : Type := mkWorld {
  self : Pooch;
  disk : gmap string Node;
  logs : list string;
  calls : list Call
}.

Definition set_self (f : Pooch -> Pooch) (w : World) : World :=
  mkWorld (f (self w)) (disk w) (logs w) (calls w).
Definition set_disk (f : gmap string Node -> gmap string Node) (w : World) : World :=
  mkWorld (self w) (f (disk w)) (logs w) (calls w).
Definition set_logs (f : list string -> list string) (w : World) : World :=
  mkWorld (self w) (disk w) (f (logs w)) (calls w).
Definition set_calls (f : list Call -> list Call) (w : World) : World :=
  mkWorld (self w) (disk w) (logs w) (f (calls w)).

(** ** The state-and-error monad *)

Definition M (A : Type) : Type := World -> Result A * World.

Definition ret {A} (a : A) : M A := fun w => (Ok a, w).
Definition raise {A} (e : Error) : M A := fun w => (Err e, w).
Definition bind {A B} (m : M A) (k : A -> M B) : M B :=
  fun w => match m w with
           | (Ok a, w') => k a w'
           | (Err e, w') => (Err e, w')
           end.
Definition gets {A} (f : World -> A) : M A := fun w => (Ok (f w), w).
Definition modify (f : World -> World) : M unit := fun w => (Ok tt, f w).

(** [try: body finally: cleanup]; the cleanup runs on both exits, and an
    exception of its own replaces the outcome of the body. *)
Definition try_finally {A} (body : M A) (cleanup : M unit) : M A :=
  fun w => match body w with
           | (r, w1) =>
               match cleanup w1 with
               | (Ok _, w2) => (r, w2)
               | (Err e, w2) => (Err e, w2)
               end
           end.

Declare Scope pooch_scope.
Delimit Scope pooch_scope with pooch.
Notation "x <~ m ; k" := (bind m (fun x => k))
  (at level 100, m at next level, right associativity) : pooch_scope.
Notation "m ;;; k" := (bind m (fun _ => k))
  (at level 100, right associativity) : pooch_scope.
Local Open Scope pooch_scope.

(** The outcome and the final world of a run. *)
Definition outcome {A} (m : M A) (w : World) : Result A := fst (m w).
Definition after {A} (m : M A) (w : World) : World := snd (m w).

(** ** The operating system: existence, directories, files

    These are the library calls the source makes ([Path.exists],
    [os.makedirs], [os.remove], [shutil.move], [open]).  A path that cannot
    be used the way the call needs it makes the call fail with
    [IOFailure]. *)

Definition file_content (w : World) (p : string) : option string :=
  match disk w !! p with
  | Some (File c) => Some c
  | _ => None
  end.
Definition is_file (w : World) (p : string) : bool :=
  bool_decide (is_Some (file_content w p)).
Definition is_dir (w : World) (p : string) : bool :=
  bool_decide (disk w !! p = Some Dir).
Definition exists_on_disk (w : World) (p : string) : bool :=
  bool_decide (is_Some (disk w !! p)).

(** [path.exists()]. *)
Definition path_exists (p : string) : M bool :=
  gets (fun w => exists_on_disk w p).

(** Making every path of a list a directory. *)
Definition mkdirs (ps : list string) (d : gmap string Node) : gmap string Node :=
  foldr (fun p m => <[p := Dir]> m) d ps.

(** [os.makedirs(p, exist_ok=...)]: creates [p] and the ancestors it lacks. *)
Definition os_makedirs (p : string) (exist_ok : bool) : M unit :=
  fun w =>
    if is_dir w p then
      (if exist_ok then Ok tt else Err (IOFailure p), w)
    else if existsb (is_file w) (p :: PathStr.ancestors p) then
      (Err (IOFailure p), w)
    else
      (Ok tt, set_disk (mkdirs (p :: PathStr.ancestors p)) w).

(** [os.remove(p)]. *)
Definition os_remove (p : string) : M unit :=
  fun w =>
    if is_file w p then (Ok tt, set_disk (delete p) w)
    else (Err (IOFailure p), w).

(** Reading a whole file. *)
Definition read_file (p : string) : M string :=
  fun w =>
    match file_content w p with
    | Some c => (Ok c, w)
    | None => (Err (IOFailure p), w)
    end.

(** [shutil.move(src, dst)]: a rename that replaces a file at [dst]; when
    [dst] is a directory the file is moved into it under its own name. *)
Definition shutil_move (src dst : string) : M unit :=
  fun w =>
    match file_content w src with
    | None => (Err (IOFailure src), w)
    | Some c =>
        if is_dir w dst then
          let real_dst := PathStr.join dst (PathStr.basename src) in
          if exists_on_disk w real_dst then (Err (IOFailure real_dst), w)
          else (Ok tt, set_disk (fun f => <[real_dst := File c]> (delete src f)) w)
        else (Ok tt, set_disk (fun f => <[dst := File c]> (delete src f)) w)
    end.

(** The name [tempfile.NamedTemporaryFile(dir=...)] picks: [tmp] followed by
    a suffix that no existing path of that form has. *)
Definition temp_prefix (dir : string) : string := PathStr.join dir "tmp".
Definition temp_suffixes (w : World) (dir : string) : gset string :=
  set_omap (PathStr.strip_prefix (temp_prefix dir)) (dom (disk w)).
Definition temp_name (w : World) (dir : string) : string :=
  temp_prefix dir +:+ fresh (temp_suffixes w dir).

(** [tempfile.NamedTemporaryFile(delete=False, dir=dir)] followed by
    [close()]: an empty file under a fresh name in [dir]. *)
Definition named_temporary_file (dir : string) : M string :=
  fun w =>
    if is_dir w dir then
      let tmp := temp_name w dir in
      (Ok tmp, set_disk (insert tmp (File "")) w)
    else (Err (IOFailure dir), w).

(** [get_logger().info(msg)]. *)
Definition log_info (msg : string) : M unit :=
  modify (set_logs (fun l => l ++ [msg])).

(** Calling a downloader: its bytes land in the output file, its log lines in
    the log, and it may raise after having written. *)
Definition call_downloader (d : Downloader) (url output_file : string)
    (pooch : option Pooch) : M unit :=
  fun w =>
    let t := dl_call d url output_file pooch in
    let w' :=
      set_calls (fun c => c ++ [CallDownloader (dl_name d) url output_file pooch t])
        (set_logs (fun l => l ++ logged t)
           (set_disk (insert output_file (File (written t))) w)) in
    match raised t with
    | Some e => (Err e, w')
    | None => (Ok tt, w')
    end.

(** Calling a processor. *)
Definition call_processor (p : Processor) (fname action : string) : M Value :=
  fun w =>
    let '(fs, r) := proc_call p fname action (self w) (disk w) in
    (r, set_calls (fun c => c ++ [CallProcessor (proc_name p) fname action (self w) r])
          (set_disk (fun _ => fs) w)).

(** ** Text helpers *)

Definition ascii_lower (c : ascii) : ascii :=
  let n := nat_of_ascii c in
  if (65 <=? n)%nat && (n <=? 90)%nat then ascii_of_nat (n + 32) else c.

Fixpoint lower (s : string) : string :=
  match s with
  | EmptyString => EmptyString
  | String c s' => String (ascii_lower c) (lower s')
  end.

(** [s.split(sep, 1)] when [sep] occurs: the text before and after the first
    occurrence of the character. *)
Fixpoint split_first (sep : ascii) (s : string) : option (string * string) :=
  match s with
  | EmptyString => None
  | String c s' =>
      if Ascii.eqb c sep then Some (EmptyString, s')
      else match split_first sep s' with
           | Some (a, b) => Some (String c a, b)
           | None => None
           end
  end.

(** Python's [str.isspace] on the ASCII range. *)
Definition is_space (c : ascii) : bool :=
  let n := nat_of_ascii c in
  ((9 <=? n)%nat && (n <=? 13)%nat) || ((28 <=? n)%nat && (n <=? 32)%nat).

Fixpoint lstrip (s : string) : string :=
  match s with
  | EmptyString => EmptyString
  | String c s' => if is_space c then lstrip s' else s
  end.

Fixpoint rstrip (s : string) : string :=
  match s with
  | EmptyString => EmptyString
  | String c s' =>
      match rstrip s' with
      | EmptyString => if is_space c then EmptyString else String c EmptyString
      | r => String c r
      end
  end.

(** [s.strip()]. *)
Definition strip (s : string) : string := lstrip (rstrip s).

Definition flush_field (cur : string) : list string :=
  match cur with
  | EmptyString => []
  | _ => [cur]
  end.

Fixpoint split_from (cur s : string) : list string :=
  match s with
  | EmptyString => flush_field cur
  | String c s' =>
      if is_space c then flush_field cur ++ split_from EmptyString s'
      else split_from (cur +:+ String c EmptyString) s'
  end.

(** [s.split()]: the fields between runs of whitespace. *)
Definition split (s : string) : list string := split_from EmptyString s.

Fixpoint lines_from (cur s : string) : list string :=
  match s with
  | EmptyString => flush_field cur
  | String c s' =>
      if Ascii.eqb c "010" then (cur +:+ String c EmptyString) :: lines_from EmptyString s'
      else lines_from (cur +:+ String c EmptyString) s'
  end.

(** Iterating over an open text file: its lines, each with its newline. *)
Definition file_lines (content : string) : list string :=
  lines_from EmptyString content.

(** [x in (a, b, ...)] on strings. *)
Definition in_tuple (x : string) (t : list string) : bool :=
  existsb (String.eqb x) t.

(** The argument of [load_registry]: a path, or an object with [read]. *)
Inductive FileArg : Type :=
| FilePath (p : string)
| FileObject (lines : list string).

(** ** A small installation, for the examples

    A stand-in for [hashlib] with two algorithms, a remote that serves the
    bytes [hello] for every URL, and a Pooch over [/cache] with three
    registered files. *)

Module Sample.

Definition sha (c : string) : string := "AB" +:+ c.
Definition md (c : string) : string := "cd" +:+ c.

Definition digest (alg : string) : option (string -> string) :=
  if String.eqb alg "sha256" then Some sha
  else if String.eqb alg "md5" then Some md
  else None.

Definition abspath (p : string) : string := p.

Definition served : Transfer := mkTransfer "hello" [] None.
Definition remote (url : string) : Transfer := served.

Definition pup : Pooch :=
  mkPooch "/cache" "http://data.example/"
    (<["data.txt" := Some "sha256:abhello"]>
       (<["bad.txt" := Some "sha256:abother"]>
          (<["odd.txt" := Some "blah:1234"]> ∅)))
    ∅.

(** Nothing on disk yet. *)
Definition fresh_world : World := mkWorld pup ∅ [] [].

(** [data.txt] is in the cache with the registered content. *)
Definition cached_world : World :=
  mkWorld pup
    (<["/cache" := Dir]> (<["/cache/data.txt" := File "hello"]> ∅)) [] [].

(** [bad.txt] and [odd.txt] are in the cache; the remote does not serve what
    the registry expects for [bad.txt]. *)
Definition stale_world : World :=
  mkWorld pup
    (<["/cache" := Dir]>
       (<["/cache/bad.txt" := File "old"]>
          (<["/cache/odd.txt" := File "data"]> ∅))) [] [].

Definition mirror : Downloader :=
  mkDownloader "mirror"
    (fun _ _ _ => mkTransfer "hello" ["downloader executed"] None).

Definition unpack : Processor :=
  mkProcessor "unpack" (fun fname _ _ fs => (fs, Ok (VList [fname]))).

End Sample.

(** ** The code of [pooch/core.py] *)

Section PoochCore.

(** The digest functions of [hashlib]: [None] for a name it does not know. *)
Variable digest : string -> option (string -> string).

(** [os.path.abspath(os.path.expanduser(p))], which depends on the working
    directory and the home of the process. *)
Variable os_abspath : string -> string.

(** What an HTTP and an FTP retrieval of a URL yield. *)
Variable http_transfer : string -> Transfer.
Variable ftp_transfer : string -> Transfer.

(** *** Collaborators from [pooch/utils.py] and [pooch/downloaders.py] *)

Definition default_algorithm : string := "sha256".

(** Modelled from the spec: the parsing rule of a hash spec (section 4.1),
    part of [pooch.utils], which is not among the sources: split on the
    first colon, algorithm on the left and digest on the right; without a
    colon the whole string is a digest of the default algorithm. *)
Definition parse_hash_spec (spec : string) : string * string :=
  match split_first ":" spec with
  | Some (alg, hex) => (alg, hex)
  | None => (default_algorithm, spec)
  end.

(** Modelled from the spec: [pooch.utils.file_hash], the [computeDigest] of
    section 4.1, which is not among the sources: the digest of a file's
    content, failing with [UnsupportedAlgorithm] for an unknown algorithm
    name and with [IOFailure] when the file cannot be read. *)
Definition file_hash (fname alg : string) : M string :=
  match digest alg with
  | None => raise (UnsupportedAlgorithm alg)
  | Some h => c <~ read_file fname ; ret (h c)
  end.

(** Modelled from the spec: [pooch.utils.hash_matches], the [matches] of
    section 4.1, which is not among the sources: true unconditionally for an
    absent or empty hash spec; otherwise the digests are compared without
    regard to case, and a mismatch raises [HashMismatch] with both digests
    when [strict] and is returned as [false] when not. *)
Definition hash_matches (fname : string) (known_hash : option string)
    (strict : bool) : M bool :=
  match known_hash with
  | None => ret true
  | Some EmptyString => ret true
  | Some spec =>
      let '(alg, expected) := parse_hash_spec spec in
      actual <~ file_hash fname alg ;
      let matches := String.eqb (lower actual) (lower expected) in
      if strict && negb matches then raise (HashMismatch actual expected)
      else ret matches
  end.

(** Modelled from the spec: [pooch.utils.temporary_file], which is not among
    the sources: a temporary file in the given directory, scoped to the
    body, removed on every exit if it is still there (section 5). *)
Definition temporary_file {A} (dir : string) (body : string -> M A) : M A :=
  tmp <~ named_temporary_file dir ;
  try_finally (body tmp)
    (still <~ path_exists tmp ;
     if still then os_remove tmp else ret tt).

Definition HTTPDownloader : Downloader :=
  mkDownloader "HTTPDownloader" (fun url _ _ => http_transfer url).
Definition FTPDownloader : Downloader :=
  mkDownloader "FTPDownloader" (fun url _ _ => ftp_transfer url).

Definition url_scheme (url : string) : string :=
  match split_first ":" url with
  | Some (scheme, _) => scheme
  | None => EmptyString
  end.

(** Modelled from the spec: [pooch.downloaders.choose_downloader], the
    [selectDefault] of section 4.3, which is not among the sources: the FTP
    strategy for the scheme [ftp], the plain HTTP strategy for anything
    else.  The call is recorded. *)
Definition choose_downloader (url : string) : M Downloader :=
  modify (set_calls (fun c => c ++ [CallChooseDownloader url])) ;;;
  ret (if String.eqb (url_scheme url) "ftp" then FTPDownloader else HTTPDownloader).

(** *** [download_action] *)

Definition download_action (path : string) (known_hash : option string)
    : M (string * string) :=
  e <~ path_exists path ;
  if negb e then ret ("download", "Downloading")
  else
    m <~ hash_matches path known_hash false ;
    if negb m then ret ("update", "Updating")
    else ret ("fetch", "Fetching").

(** *** [stream_download] *)

Definition stream_download (url fname : string) (known_hash : option string)
    (downloader : Downloader) (pooch : option Pooch) : M unit :=
  e <~ path_exists (PathStr.parent fname) ;
  (if negb e then os_makedirs (PathStr.parent fname) false else ret tt) ;;;
  temporary_file (PathStr.parent fname) (fun tmp =>
    call_downloader downloader url tmp pooch ;;;
    hash_matches tmp known_hash true ;;;
    shutil_move tmp fname).

(** *** The methods of [Pooch] *)

(** The property [abspath]. *)
Definition abspath : M string :=
  gets (fun w => os_abspath (path (self w))).

Definition _assert_file_in_registry (fname : string) : M unit :=
  r <~ gets (fun w => registry (self w)) ;
  if negb (bool_decide (is_Some (r !! fname))) then raise (NotInRegistry fname)
  else ret tt.

Definition get_url (fname : string) : M string :=
  _assert_file_in_registry fname ;;;
  gets (fun w => default (base_url (self w) +:+ fname) (urls (self w) !! fname)).

(** [self.registry[fname]]. *)
Definition registry_getitem (fname : string) : M (option string) :=
  r <~ gets (fun w => registry (self w)) ;
  match r !! fname with
  | Some h => ret h
  | None => raise (KeyError fname)
  end.

Definition fetch (fname : string) (processor : option Processor)
    (downloader : option Downloader) : M Value :=
  _assert_file_in_registry fname ;;;
  root <~ abspath ;
  os_makedirs root true ;;;
  url <~ get_url fname ;
  let full_path := PathStr.join root fname in
  known_hash <~ registry_getitem fname ;
  av <~ download_action full_path known_hash ;
  let '(action, verb) := av in
  (if in_tuple action ["download"; "update"] then
     log_info (verb +:+ " file '" +:+ fname +:+ "' from '" +:+ url
                 +:+ "' to '" +:+ root +:+ "'.") ;;;
     downloader <~ match downloader with
                   | None => choose_downloader url
                   | Some d => ret d
                   end ;
     pup <~ gets self ;
     stream_download url full_path known_hash downloader (Some pup)
   else ret tt) ;;;
  match processor with
  | Some p => call_processor p full_path action
  | None => ret (VStr full_path)
  end.

(** One line of the registry file, [linenum] counted from zero.  A line
    read as bytes is decoded first and is the same string here; the error
    carries the line number, the field count and the line, the file name
    of the Python message is left out. *)
Definition load_registry_line (linenum : nat) (line : string) : M unit :=
  let elements := split (strip line) in
  if negb (bool_decide (length elements ∈ [0; 2; 3]%nat)) then
    raise (InvalidRegistryEntry (linenum + 1) (length elements) line)
  else
    match elements with
    | [] => ret tt
    | _ =>
        match elements !! 0%nat, elements !! 1%nat with
        | Some file_name, Some file_checksum =>
            (if (length elements =? 3)%nat then
               match elements !! 2%nat with
               | Some file_url =>
                   modify (set_self (fun p =>
                     mkPooch (path p) (base_url p) (registry p)
                             (<[file_name := file_url]> (urls p))))
               | None => raise (Raised "IndexError")
               end
             else ret tt) ;;;
            modify (set_self (fun p =>
              mkPooch (path p) (base_url p)
                      (<[file_name := Some file_checksum]> (registry p)) (urls p)))
        | _, _ => raise (Raised "IndexError")
        end
    end.

(** The loop [for linenum, line in enumerate(fin)]. *)
Fixpoint load_registry_lines (linenum : nat) (lines : list string) : M unit :=
  match lines with
  | [] => ret tt
  | line :: rest =>
      load_registry_line linenum line ;;;
      load_registry_lines (S linenum) rest
  end.

Definition load_registry (fname : FileArg) : M unit :=
  fin <~ match fname with
         | FileObject lines => ret lines
         | FilePath p => c <~ read_file p ; ret (file_lines c)
         end ;
  load_registry_lines 0 fin.


(** *** The exits of [stream_download]

    Relations that name every way the download can end; the code is shown
    below to always take one of them. *)

(** The comparison of [hash_matches] on a content that has been read. *)
Definition content_check (c : string) (known_hash : option string)
    (strict : bool) : Result bool :=
  match known_hash with
  | None => Ok true
  | Some EmptyString => Ok true
  | Some spec =>
      let '(alg, expected) := parse_hash_spec spec in
      match digest alg with
      | None => Err (UnsupportedAlgorithm alg)
      | Some h =>
          let matches := String.eqb (lower (h c)) (lower expected) in
          if strict && negb matches then Err (HashMismatch (h c) expected)
          else Ok matches
      end
  end.

(** From a disk [d0] that holds the temporary file's directory but not yet
    the temporary file [tmp]: the outcome of transfer, verification and
    move, and the disk once the temporary file has been cleaned up. *)
Inductive install_exit (d0 : gmap string Node) (tmp fname : string)
    (known_hash : option string) (t : Transfer)
    : Result unit -> gmap string Node -> Prop :=
| install_transport_error e :
    raised t = Some e ->
    install_exit d0 tmp fname known_hash t (Err e) d0
| install_rejected e :
    raised t = None ->
    content_check (written t) known_hash true = Err e ->
    install_exit d0 tmp fname known_hash t (Err e) d0
| install_blocked :
    raised t = None ->
    content_check (written t) known_hash true = Ok true ->
    d0 !! fname = Some Dir ->
    (PathStr.join fname (PathStr.basename tmp) = tmp
     \/ is_Some (d0 !! PathStr.join fname (PathStr.basename tmp))) ->
    install_exit d0 tmp fname known_hash t
      (Err (IOFailure (PathStr.join fname (PathStr.basename tmp)))) d0
| install_into_directory :
    raised t = None ->
    content_check (written t) known_hash true = Ok true ->
    d0 !! fname = Some Dir ->
    PathStr.join fname (PathStr.basename tmp) <> tmp ->
    d0 !! PathStr.join fname (PathStr.basename tmp) = None ->
    install_exit d0 tmp fname known_hash t (Ok tt)
      (<[PathStr.join fname (PathStr.basename tmp) := File (written t)]> d0)
| install_onto_itself :
    raised t = None ->
    content_check (written t) known_hash true = Ok true ->
    fname = tmp ->
    install_exit d0 tmp fname known_hash t (Ok tt) d0
| install_done :
    raised t = None ->
    content_check (written t) known_hash true = Ok true ->
    d0 !! fname <> Some Dir ->
    fname <> tmp ->
    install_exit d0 tmp fname known_hash t (Ok tt)
      (<[fname := File (written t)]> d0).

(** The disk on which the temporary file is made: the one [stream_download]
    starts from, with the parent directory made if it was missing. *)
Definition prepared (w : World) (fname : string) (d0 : gmap string Node) : Prop :=
  d0 !! PathStr.parent fname = Some Dir /\
  (d0 = disk w \/
   (disk w !! PathStr.parent fname = None /\
    d0 = mkdirs (PathStr.parent fname :: PathStr.ancestors (PathStr.parent fname))
           (disk w))).

Inductive stream_exit (w : World) (url fname : string)
    (known_hash : option string) (d : Downloader) (pooch : option Pooch)
    : Result unit -> World -> Prop :=
| stream_unprepared p :
    stream_exit w url fname known_hash d pooch (Err (IOFailure p)) w
| stream_transferred d0 tmp r d1 :
    prepared w fname d0 ->
    d0 !! tmp = None ->
    tmp = temp_name (set_disk (fun _ => d0) w) (PathStr.parent fname) ->
    install_exit d0 tmp fname known_hash (dl_call d url tmp pooch) r d1 ->
    stream_exit w url fname known_hash d pooch r
      (mkWorld (self w) d1
         (logs w ++ logged (dl_call d url tmp pooch))
         (calls w ++ [CallDownloader (dl_name d) url tmp pooch (dl_call d url tmp pooch)])).

(** *** The exits of [fetch] *)

(** The URL, the target and the log line [fetch] computes. *)
Definition fetch_url (w : World) (fname : string) : string :=
  default (base_url (self w) +:+ fname) (urls (self w) !! fname).
Definition fetch_root (w : World) : string := os_abspath (path (self w)).
Definition fetch_target (w : World) (fname : string) : string :=
  PathStr.join (fetch_root w) fname.
Definition fetch_message (verb fname url root : string) : string :=
  verb +:+ " file '" +:+ fname +:+ "' from '" +:+ url
    +:+ "' to '" +:+ root +:+ "'.".

(** The downloader that will be called: the caller's, or the one
    [choose_downloader] gives, whose call is then on record. *)
Definition select_downloader (downloader : option Downloader) (url : string)
    (w : World) : Downloader * World :=
  match downloader with
  | Some d => (d, w)
  | None =>
      (if String.eqb (url_scheme url) "ftp" then FTPDownloader else HTTPDownloader,
       set_calls (fun c => c ++ [CallChooseDownloader url]) w)
  end.

(** The last step of [fetch]: the processor's value, or the path. *)
Definition deliver (processor : option Processor) (full_path action : string)
    : M Value :=
  match processor with
  | Some p => call_processor p full_path action
  | None => ret (VStr full_path)
  end.

(** What [download_action] decides on a world, for a transfer. *)
Definition needs_transfer (w : World) (target : string)
    (known_hash : option string) (action verb : string) : Prop :=
  (exists_on_disk w target = false /\
   action = "download" /\ verb = "Downloading") \/
  (exists_on_disk w target = true /\
   outcome (hash_matches target known_hash false) w = Ok false /\
   action = "update" /\ verb = "Updating").

Inductive fetch_exit (w : World) (fname : string)
    (processor : option Processor) (downloader : option Downloader)
    : Result Value -> World -> Prop :=
| fetch_unknown :
    registry (self w) !! fname = None ->
    fetch_exit w fname processor downloader (Err (NotInRegistry fname)) w
| fetch_no_storage known_hash e :
    registry (self w) !! fname = Some known_hash ->
    os_makedirs (fetch_root w) true w = (Err e, w) ->
    fetch_exit w fname processor downloader (Err e) w
| fetch_unresolved known_hash w1 e :
    registry (self w) !! fname = Some known_hash ->
    os_makedirs (fetch_root w) true w = (Ok tt, w1) ->
    exists_on_disk w1 (fetch_target w fname) = true ->
    outcome (hash_matches (fetch_target w fname) known_hash false) w1 = Err e ->
    fetch_exit w fname processor downloader (Err e) w1
| fetch_cached known_hash w1 r w2 :
    registry (self w) !! fname = Some known_hash ->
    os_makedirs (fetch_root w) true w = (Ok tt, w1) ->
    exists_on_disk w1 (fetch_target w fname) = true ->
    outcome (hash_matches (fetch_target w fname) known_hash false) w1 = Ok true ->
    deliver processor (fetch_target w fname) "fetch" w1 = (r, w2) ->
    fetch_exit w fname processor downloader r w2
| fetch_transfer_failed known_hash w1 action verb d w3 e w4 :
    registry (self w) !! fname = Some known_hash ->
    os_makedirs (fetch_root w) true w = (Ok tt, w1) ->
    needs_transfer w1 (fetch_target w fname) known_hash action verb ->
    select_downloader downloader (fetch_url w fname)
      (set_logs (fun l => l ++ [fetch_message verb fname (fetch_url w fname) (fetch_root w)]) w1)
      = (d, w3) ->
    stream_download (fetch_url w fname) (fetch_target w fname) known_hash d
      (Some (self w)) w3 = (Err e, w4) ->
    fetch_exit w fname processor downloader (Err e) w4
| fetch_transferred known_hash w1 action verb d w3 w4 r w5 :
    registry (self w) !! fname = Some known_hash ->
    os_makedirs (fetch_root w) true w = (Ok tt, w1) ->
    needs_transfer w1 (fetch_target w fname) known_hash action verb ->
    select_downloader downloader (fetch_url w fname)
      (set_logs (fun l => l ++ [fetch_message verb fname (fetch_url w fname) (fetch_root w)]) w1)
      = (d, w3) ->
    stream_download (fetch_url w fname) (fetch_target w fname) known_hash d
      (Some (self w)) w3 = (Ok tt, w4) ->
    deliver processor (fetch_target w fname) action w4 = (r, w5) ->
    fetch_exit w fname processor downloader r w5.

(** The calls made during a run that started in [w] and ended in [w']. *)
Definition new_calls (w w' : World) : list Call :=
  drop (length (calls w)) (calls w').

Definition is_processor_call (c : Call) : bool :=
  match c with
  | CallProcessor _ _ _ _ _ => true
  | _ => false
  end.

(** *** The temporary file of [stream_download]

    Before anything is transferred [stream_download] needs the directory of
    the target: it asks [fname.parent.exists()], calls [os.makedirs] when
    the answer is no, and has [NamedTemporaryFile] make a file there. *)

(** Whether that gets through: the parent of [fname] is there as a
    directory, or nothing is there and no regular file is in the way of
    making it. *)
Definition parent_ready (w : World) (fname : string) : bool :=
  if exists_on_disk w (PathStr.parent fname) then is_dir w (PathStr.parent fname)
  else negb (existsb (is_file w)
               (PathStr.parent fname :: PathStr.ancestors (PathStr.parent fname))).

(** The disk on which the temporary file is then made. *)
Definition prepared_disk (w : World) (fname : string) : gmap string Node :=
  if exists_on_disk w (PathStr.parent fname) then disk w
  else mkdirs (PathStr.parent fname :: PathStr.ancestors (PathStr.parent fname))
         (disk w).

(** The name the temporary file of [stream_download] gets. *)
Definition stream_temporary (w : World) (fname : string) : string :=
  temp_name (set_disk (fun _ => prepared_disk w fname) w) (PathStr.parent fname).

(** The same for the [stream_download] that [fetch] runs, which starts once
    [os.makedirs] has seen to the storage folder. *)
Definition fetch_temporary (w : World) (fname : string) : string :=
  stream_temporary (after (os_makedirs (fetch_root w) true) w) (fetch_target w fname).

(** *** The registry file, as the documentation of [load_registry] reads *)

(** [self.registry[name] = hash] and [self.urls[name] = url]. *)
Definition set_registry_entry (name hash : string) (p : Pooch) : Pooch :=
  mkPooch (path p) (base_url p) (<[name := Some hash]> (registry p)) (urls p).
Definition set_url_entry (name url : string) (p : Pooch) : Pooch :=
  mkPooch (path p) (base_url p) (registry p) (<[name := url]> (urls p)).

(** What one line asks for: nothing for a blank line, an error for a line of
    one field or of four fields and more, and otherwise an entry for the
    first field with the second as its hash and, when there is a third, the
    third as its URL. *)
Inductive LineEntry : Type :=
| BlankLine
| InvalidLine (count : nat)
| HashEntry (name hash : string)
| HashUrlEntry (name hash url : string).

Definition line_entry (line : string) : LineEntry :=
  match split (strip line) with
  | [] => BlankLine
  | [name; hash] => HashEntry name hash
  | [name; hash; url] => HashUrlEntry name hash url
  | fields => InvalidLine (length fields)
  end.

(** The lines applied in order from line number [linenum] (counted from
    zero): the first invalid line stops the reading with the entries made
    so far in place. *)
Fixpoint registry_lines (linenum : nat) (lines : list string) (p : Pooch)
    : Result unit * Pooch :=
  match lines with
  | [] => (Ok tt, p)
  | line :: rest =>
      match line_entry line with
      | BlankLine => registry_lines (S linenum) rest p
      | InvalidLine count =>
          (Err (InvalidRegistryEntry (linenum + 1) count line), p)
      | HashEntry name hash =>
          registry_lines (S linenum) rest (set_registry_entry name hash p)
      | HashUrlEntry name hash url =>
          registry_lines (S linenum) rest
            (set_registry_entry name hash (set_url_entry name url p))
      end
  end.

(** The decision of [download_action] as the specification words it: a
    download for a missing path, an update when the lenient comparison is
    false, and a plain fetch in every other case. *)
Definition download_action_as_claimed : Prop :=
  forall (w : World) (path : string) (known_hash : option string),
    download_action path known_hash w =
    (Ok (if negb (exists_on_disk w path) then ("download", "Downloading")
         else match outcome (hash_matches path known_hash false) w with
              | Ok false => ("update", "Updating")
              | _ => ("fetch", "Fetching")
              end), w).

(** The fate of the temporary file as the specification words it: the file
    handed to the downloader is gone when [stream_download] completes, and
    on success it is at the target path. *)
Definition stream_download_as_claimed : Prop :=
  forall (w : World) (url fname : string) (known_hash : option string)
         (d : Downloader) (pooch : option Pooch)
         (name u tmp : string) (pp : option Pooch) (t : Transfer),
    CallDownloader name u tmp pp t
      ∈ new_calls w (after (stream_download url fname known_hash d pooch) w) ->
    disk (after (stream_download url fname known_hash d pooch) w) !! tmp = None /\
    (outcome (stream_download url fname known_hash d pooch) w = Ok tt ->
     disk (after (stream_download url fname known_hash d pooch) w) !! fname
     = Some (File (written t))).

(** The use of a downloader given to [fetch] as the specification words it:
    whenever the resolved action needs a transfer, that downloader is
    called. *)
Definition explicit_downloader_as_claimed : Prop :=
  forall (w : World) (fname : string) (processor : option Processor)
         (d : Downloader) (known_hash : option string) (action verb : string),
    registry (self w) !! fname = Some known_hash ->
    outcome (os_makedirs (fetch_root w) true) w = Ok tt ->
    outcome (download_action (fetch_target w fname) known_hash)
      (after (os_makedirs (fetch_root w) true) w) = Ok (action, verb) ->
    in_tuple action ["download"; "update"] = true ->
    exists output_file pup t,
      CallDownloader (dl_name d) (fetch_url w fname) output_file pup t
        ∈ new_calls w (after (fetch fname processor (Some d)) w).

(** *** [is_available]

    The availability check talks to the network, not to the disk.  What
    goes over the wire is recorded beside the world. *)

(** [os.path.dirname]: the text up to the last separator, without trailing
    separators unless it consists of separators only. *)
Fixpoint upto_last_slash (s : string) : string :=
  match s with
  | EmptyString => EmptyString
  | String c s' =>
      match upto_last_slash s' with
      | EmptyString =>
          if Ascii.eqb c "/" then String c EmptyString else EmptyString
      | r => String c r
      end
  end.

Fixpoint all_slashes (s : string) : bool :=
  match s with
  | EmptyString => true
  | String c s' => Ascii.eqb c "/" && all_slashes s'
  end.

Fixpoint rstrip_slashes (s : string) : string :=
  match s with
  | EmptyString => EmptyString
  | String c s' =>
      match rstrip_slashes s' with
      | EmptyString => if Ascii.eqb c "/" then EmptyString else String c EmptyString
      | r => String c r
      end
  end.

Definition os_path_dirname (p : string) : string :=
  let head := upto_last_slash p in
  if all_slashes head then head else rstrip_slashes head.

(** The dictionary [parse_url] returns. *)
Record ParsedUrl : Type := mkParsedUrl {
  protocol : string;
  netloc : string;
  url_path : string
}.

(** What is sent to the remote side during an availability check. *)
Inductive WireEvent : Type :=
| FtpConnect (host : string)
| FtpLogin (host : string)
| FtpNlst (host directory : string)
| FtpClose (host : string)
| HttpHead (url : string).

(** [pooch.utils.parse_url], which is not among the sources. *)
Variable parse_url : string -> ParsedUrl.

(** The servers: whether [connect] and an anonymous [login] to a host raise,
    what [nlst] of a directory lists, and the status of a [HEAD] request
    that follows redirects. *)
Variable ftp_connect_raises : string -> option Error.
Variable ftp_login_raises : string -> option Error.
Variable ftp_nlst_result : string -> string -> Result (list string).
Variable http_head_status : string -> Result nat.

(** The state of an availability check: the world and the wire. *)
Definition N (A : Type) : Type := World * list WireEvent -> Result A * (World * list WireEvent).

Definition retN {A} (a : A) : N A := fun s => (Ok a, s).
Definition bindN {A B} (m : N A) (k : A -> N B) : N B :=
  fun s => match m s with
           | (Ok a, s') => k a s'
           | (Err e, s') => (Err e, s')
           end.
Definition liftN {A} (m : M A) : N A :=
  fun s => match m s.1 with
           | (r, w') => (r, (w', s.2))
           end.
Definition finallyN {A} (body : N A) (cleanup : N unit) : N A :=
  fun s => match body s with
           | (r, s1) =>
               match cleanup s1 with
               | (Ok _, s2) => (r, s2)
               | (Err e, s2) => (Err e, s2)
               end
           end.

(** One request on the wire, which raises or answers. *)
Definition send {A} (ev : WireEvent) (answer : Result A) : N A :=
  fun s => (answer, (s.1, s.2 ++ [ev])).

Definition raises_or_unit (r : option Error) : Result unit :=
  match r with
  | Some e => Err e
  | None => Ok tt
  end.

Definition is_available (fname : string) : N bool :=
  bindN (liftN (_assert_file_in_registry fname)) (fun _ =>
  bindN (liftN (get_url fname)) (fun source =>
  let parsed_url := parse_url source in
  if String.eqb (protocol parsed_url) "ftp" then
    let directory := os_path_dirname (url_path parsed_url) in
    let host := netloc parsed_url in
    bindN (send (FtpConnect host) (raises_or_unit (ftp_connect_raises host))) (fun _ =>
    finallyN
      (bindN (send (FtpLogin host) (raises_or_unit (ftp_login_raises host))) (fun _ =>
       bindN (send (FtpNlst host directory) (ftp_nlst_result host directory)) (fun listing =>
       retN (bool_decide (url_path parsed_url ∈ listing)))))
      (send (FtpClose host) (Ok tt)))
  else
    bindN (send (HttpHead source) (http_head_status source)) (fun status_code =>
    retN (status_code =? 200)%nat))).

(** A Pooch with the same folder and base URL and nothing registered. *)
Definition unregistered (p : Pooch) : Pooch :=
  mkPooch (path p) (base_url p) ∅ ∅.

(** *** [Pooch.__init__] and the dictionaries it is given

    [self.registry = registry] keeps the caller's dictionary, while
    [self.urls = dict(urls)] keeps a copy.  To tell the two apart the
    dictionaries live in a store and are named by references; a method
    called on an instance works on the dictionaries the instance refers
    to. *)

Record Store : Type := mkStore {
  registry_dicts : gmap nat (gmap string (option string));
  url_dicts : gmap nat (gmap string string)
}.

(** The attributes of an instance: two strings and two references. *)
Record Instance : Type := mkInstance {
  self_path : string;
  self_base_url : string;
  self_registry : nat;
  self_urls : nat
}.

(** [dict()]: a new, empty dictionary. *)
Definition new_registry_dict (st : Store) : nat * Store :=
  let r := fresh (dom (registry_dicts st)) in
  (r, mkStore (<[r := ∅]> (registry_dicts st)) (url_dicts st)).

(** [dict(urls)]: a new dictionary with the entries of [urls]. *)
Definition copy_url_dict (entries : gmap string string) (st : Store) : nat * Store :=
  let u := fresh (dom (url_dicts st)) in
  (u, mkStore (registry_dicts st) (<[u := entries]> (url_dicts st))).

(** [Pooch(path, base_url, registry, urls)], with [None] for an argument
    left out; a reference given is one of the store. *)
Definition Pooch_init (path base_url : string) (registry urls : option nat)
    (st : Store) : Instance * Store :=
  let '(r, st1) := match registry with
                   | None => new_registry_dict st
                   | Some r => (r, st)
                   end in
  let entries := match urls with
                 | None => ∅
                 | Some u => default ∅ (url_dicts st1 !! u)
                 end in
  let '(u, st2) := copy_url_dict entries st1 in
  (mkInstance path base_url r u, st2).

(** The instance with its dictionaries read from the store. *)
Definition instance_view (inst : Instance) (st : Store) : Pooch :=
  mkPooch (self_path inst) (self_base_url inst)
    (default ∅ (registry_dicts st !! self_registry inst))
    (default ∅ (url_dicts st !! self_urls inst)).

(** A method run on an instance: [self] is the instance as the store has
    it, and what the method does to [self.registry] and [self.urls] is
    done to the dictionaries of the store. *)
Definition on_instance {A} (inst : Instance) (m : M A)
    : Store * World -> Result A * (Store * World) :=
  fun s =>
    match m (set_self (fun _ => instance_view inst s.1) s.2) with
    | (r, w') =>
        (r, (mkStore (<[self_registry inst := registry (self w')]> (registry_dicts s.1))
                     (<[self_urls inst := urls (self w')]> (url_dicts s.1)),
             w'))
    end.

(** *** More of the sample installation *)

(** The storage folder exists and is empty. *)
Definition sample_empty_cache : World :=
  mkWorld Sample.pup (<["/cache" := Dir]> ∅) [] [].

(** An older [data.txt] is in the cache. *)
Definition sample_outdated_cache : World :=
  mkWorld Sample.pup
    (<["/cache" := Dir]> (<["/cache/data.txt" := File "old"]> ∅)) [] [].

(** A directory sits where [data.txt] is to go. *)
Definition sample_directory_target : World :=
  mkWorld Sample.pup
    (<["/cache" := Dir]> (<["/cache/data.txt" := Dir]> ∅)) [] [].

(** A Pooch whose files are a file in a subfolder and a file whose name
    begins like the names of temporary files. *)
Definition sample_nested_pup : Pooch :=
  mkPooch "/cache" "http://data.example/"
    (<["sub/data.txt" := Some "sha256:abhello"]>
       (<["tmpdata.csv" := Some "sha256:abhello"]> ∅))
    ∅.

(** Nothing on disk yet, not even the storage folder. *)
Definition sample_nested_world : World := mkWorld sample_nested_pup ∅ [] [].

(** A regular file sits where the subfolder is to go. *)
Definition sample_blocked_world : World :=
  mkWorld sample_nested_pup
    (<["/cache" := Dir]> (<["/cache/sub" := File "in the way"]> ∅)) [] [].

(** A downloader whose connection breaks after two bytes. *)
Definition sample_broken : Downloader :=
  mkDownloader "broken" (fun _ _ _ => mkTransfer "he" [] (Some ConnectionFailure)).

(** A URL into protocol, host and path. *)
Definition sample_parse_url (url : string) : ParsedUrl :=
  match split_first ":" url with
  | Some (proto, rest) =>
      match PathStr.strip_prefix "//" rest with
      | Some r =>
          match split_first "/" r with
          | Some (host, p) => mkParsedUrl proto host ("/" +:+ p)
          | None => mkParsedUrl proto r EmptyString
          end
      | None => mkParsedUrl proto EmptyString rest
      end
  | None => mkParsedUrl EmptyString EmptyString url
  end.

(** An FTP server with one file in [/pub], and web servers that answer 200
    for one URL and 404 for the others. *)
Definition sample_nlst (host directory : string) : Result (list string) :=
  if String.eqb directory "/pub" then Ok ["/pub/100KB.zip"] else Ok [].
Definition sample_head (url : string) : Result nat :=
  if String.eqb url "http://data.example/data.txt" then Ok 200%nat else Ok 404%nat.

Definition sample_ftp_pup : Pooch :=
  mkPooch "/cache" "ftp://speedtest.example/pub/"
    (<["100KB.zip" := Some "sha256:abzip"]>
       (<["doesnot_exist.zip" := Some "sha256:abnone"]> ∅))
    ∅.
Definition sample_ftp_world : World := mkWorld sample_ftp_pup ∅ [] [].

(** A store with one registry dictionary and one dictionary of URLs, as a
    caller would hold them. *)
Definition sample_store : Store :=
  mkStore (<[0%nat := <["data.txt" := Some "sha256:abhello"]> ∅]> ∅)
          (<[0%nat := <["data.txt" := "http://mirror.example/data.txt"]> ∅]> ∅).

(** ** Lemmas on paths and on the disk *)

Lemma string_length_app (a b : string) :
  String.length (a +:+ b) = (String.length a + String.length b)%nat.
Proof. induction a as [|c a IH]; simpl; [done|]. by rewrite IH. Qed.

Lemma strip_prefix_app (pre s : string) :
  PathStr.strip_prefix pre (pre +:+ s) = Some s.
Proof.
  induction pre as [|a pre IH]; simpl; [done|].
  by rewrite Ascii.eqb_refl.
Qed.

Lemma prefixes_at_slash_length (acc s x : string) :
  x ∈ PathStr.prefixes_at_slash acc s ->
  (String.length x < String.length acc + String.length s)%nat.
Proof.
  revert acc. induction s as [|c s IH]; intros acc; simpl.
  - by intros ?%elem_of_nil.
  - intros [Hx|Hx]%elem_of_app.
    + destruct (Ascii.eqb c "/"); [|by apply elem_of_nil in Hx].
      apply list_elem_of_singleton in Hx as ->. lia.
    + apply IH in Hx. rewrite string_length_app in Hx. simpl in Hx. lia.
Qed.

Lemma ancestors_shorter (p x : string) :
  x ∈ PathStr.ancestors p -> (String.length x < String.length p)%nat.
Proof. intros Hx%prefixes_at_slash_length. simpl in Hx. lia. Qed.

Lemma last_default_or_elem {A} (l : list A) (d : A) :
  List.last l d = d \/ List.last l d ∈ l.
Proof.
  induction l as [|x l IH]; [by left|].
  destruct l as [|y l]; [right; simpl; apply list_elem_of_here|].
  destruct IH as [IH|IH].
  - left. exact IH.
  - right. apply list_elem_of_further. exact IH.
Qed.

Lemma parent_shorter (p : string) :
  p <> EmptyString -> (String.length (PathStr.parent p) < String.length p)%nat.
Proof.
  intros Hp. unfold PathStr.parent.
  destruct (last_default_or_elem (PathStr.ancestors p) "") as [->|Hin].
  - destruct p; [done|simpl; lia].
  - by apply ancestors_shorter.
Qed.

Lemma join_length (a b : string) :
  String.length (PathStr.join a b) = (String.length a + 1 + String.length b)%nat.
Proof. unfold PathStr.join. rewrite !string_length_app. simpl. lia. Qed.

Lemma join_not_empty (a b : string) : PathStr.join a b <> EmptyString.
Proof. intros H. apply (f_equal String.length) in H. rewrite join_length in H. simpl in H. lia. Qed.

(** A target under a root is neither its own parent directory nor one of
    the directories above it. *)
Lemma target_not_above (t x : string) :
  t <> EmptyString ->
  x ∈ PathStr.parent t :: PathStr.ancestors (PathStr.parent t) -> x <> t.
Proof.
  intros Ht Hx ->. pose proof (parent_shorter t Ht) as Hlt.
  apply elem_of_cons in Hx as [Hx|Hx].
  - rewrite <- Hx in Hlt. lia.
  - apply ancestors_shorter in Hx. lia.
Qed.

Lemma mkdirs_lookup_in (ps : list string) (d : gmap string Node) (q : string) :
  q ∈ ps -> mkdirs ps d !! q = Some Dir.
Proof.
  induction ps as [|p ps IH]; simpl; [by intros ?%elem_of_nil|].
  intros Hq. destruct (decide (p = q)) as [->|Hne].
  - apply lookup_insert_eq.
  - rewrite lookup_insert_ne by done. apply IH.
    apply elem_of_cons in Hq as [->|Hq]; done.
Qed.

Lemma mkdirs_lookup_notin (ps : list string) (d : gmap string Node) (q : string) :
  q ∉ ps -> mkdirs ps d !! q = d !! q.
Proof.
  induction ps as [|p ps IH]; simpl; [done|].
  intros Hq. apply not_elem_of_cons in Hq as [Hne Hq].
  rewrite lookup_insert_ne by done. by apply IH.
Qed.

(** Making directories that are all missing or directories already leaves
    every file as it was. *)
Lemma mkdirs_preserves_files (ps : list string) (d : gmap string Node) (q : string) (c : string) :
  mkdirs ps d !! q = Some (File c) <-> d !! q = Some (File c) /\ q ∉ ps.
Proof.
  destruct (decide (q ∈ ps)) as [Hin|Hout].
  - rewrite mkdirs_lookup_in by done. split; [done|]. by intros [_ ?].
  - rewrite mkdirs_lookup_notin by done. tauto.
Qed.

Lemma temp_name_fresh (w : World) (dir : string) :
  disk w !! temp_name w dir = None.
Proof.
  apply not_elem_of_dom. intros Hin.
  apply (is_fresh (temp_suffixes w dir)).
  unfold temp_suffixes. apply elem_of_set_omap.
  exists (temp_name w dir). split; [done|]. apply strip_prefix_app.
Qed.

(** ** Lemmas on the collaborators *)

Lemma hash_matches_after (f : string) (kh : option string) (s : bool) (w : World) :
  after (hash_matches f kh s) w = w.
Proof.
  unfold after, hash_matches.
  destruct kh as [[|a spec]|]; try reflexivity.
  destruct (parse_hash_spec _) as [alg expected].
  unfold bind, file_hash. destruct (digest alg); [|reflexivity].
  unfold bind, read_file. destruct (file_content w f); [|reflexivity].
  simpl. by destruct (s && _).
Qed.

Lemma hash_matches_content (f : string) (kh : option string) (s : bool) (w : World) (c : string) :
  file_content w f = Some c ->
  hash_matches f kh s w = (content_check c kh s, w).
Proof.
  intros Hc. unfold hash_matches, content_check.
  destruct kh as [[|a spec]|]; try reflexivity.
  destruct (parse_hash_spec _) as [alg expected].
  unfold bind, file_hash. destruct (digest alg); [|reflexivity].
  unfold bind, read_file. rewrite Hc. simpl. by destruct (s && _).
Qed.

(** A strict comparison that returns has returned [True], and the lenient
    one agrees with it. *)
Lemma content_check_strict_ok (c : string) (kh : option string) (b : bool) :
  content_check c kh true = Ok b -> b = true /\ content_check c kh false = Ok true.
Proof.
  unfold content_check.
  destruct kh as [[|a spec]|]; try (intros [= <-]; done).
  destruct (parse_hash_spec _) as [alg expected].
  destruct (digest alg); [|done].
  destruct (String.eqb _ _); simpl; [|done]. by intros [= <-].
Qed.


Lemma ensure_parent_cases (dir : string) (w : World) :
  let prep := (e <~ path_exists dir ;
               if negb e then os_makedirs dir false else ret tt) in
  (exists p, prep w = (Err (IOFailure p), w)) \/
  (prep w = (Ok tt, w) /\ is_Some (disk w !! dir)) \/
  (disk w !! dir = None /\
   prep w = (Ok tt, set_disk (mkdirs (dir :: PathStr.ancestors dir)) w)).
Proof.
  unfold bind, path_exists, gets, exists_on_disk. simpl.
  case_bool_decide as Hex; simpl.
  - right. left. done.
  - assert (disk w !! dir = None) as Hnone.
    { destruct (disk w !! dir) eqn:E; [|done]. exfalso. apply Hex. by eexists. }
    unfold os_makedirs, is_dir. rewrite Hnone.
    rewrite bool_decide_eq_false_2 by done.
    destruct (existsb _ _).
    + left. by eexists.
    + right. right. done.
Qed.


Lemma bind_assoc {A B C} (m : M A) (f : A -> M B) (g : B -> M C) (w : World) :
  bind (bind m f) g w = bind m (fun x => bind (f x) g) w.
Proof. unfold bind. destruct (m w) as [[a|e] w1]; [|done]. done. Qed.

Lemma bind_run_ok {A B} (m : M A) (k : A -> M B) (w w' : World) (a : A) :
  m w = (Ok a, w') -> bind m k w = k a w'.
Proof. intros H. unfold bind. by rewrite H. Qed.

Lemma bind_run_err {A B} (m : M A) (k : A -> M B) (w w' : World) (e : Error) :
  m w = (Err e, w') -> bind m k w = (Err e, w').
Proof. intros H. unfold bind. by rewrite H. Qed.

Lemma disk_temp_removed (D : gmap string Node) (tmp : string) (x y : Node) :
  D !! tmp = None -> delete tmp (<[tmp := x]> (<[tmp := y]> D)) = D.
Proof. intros H. rewrite insert_insert_eq. by apply delete_insert_id. Qed.

(** The cleanup of [temporary_file] removes a temporary file that is still
    there and does nothing when it is gone. *)
Lemma cleanup_removes (tmp c : string) (w : World) :
  disk w !! tmp = Some (File c) ->
  (still <~ path_exists tmp ; if still then os_remove tmp else ret tt) w
  = (Ok tt, set_disk (delete tmp) w).
Proof.
  intros H. unfold bind, path_exists, gets, exists_on_disk, os_remove, is_file, file_content.
  rewrite H. simpl. by rewrite H.
Qed.

Lemma cleanup_absent (tmp : string) (w : World) :
  disk w !! tmp = None ->
  (still <~ path_exists tmp ; if still then os_remove tmp else ret tt) w
  = (Ok tt, w).
Proof.
  intros H. unfold bind, path_exists, gets, exists_on_disk.
  rewrite H. rewrite bool_decide_eq_false_2; [done|]. by intros [? ?].
Qed.

Lemma transfer_unavailable (dir url fname : string) (kh : option string)
    (d : Downloader) (pooch : option Pooch) (w : World) :
  disk w !! dir <> Some Dir ->
  temporary_file dir (fun tmp =>
      call_downloader d url tmp pooch ;;;
      hash_matches tmp kh true ;;;
      shutil_move tmp fname) w = (Err (IOFailure dir), w).
Proof.
  intros Hd. unfold temporary_file, bind at 1, named_temporary_file, is_dir.
  by rewrite bool_decide_eq_false_2.
Qed.

Lemma transfer_exits (dir url fname : string) (kh : option string)
    (d : Downloader) (pooch : option Pooch) (w : World) :
  disk w !! dir = Some Dir ->
  let tmp := temp_name w dir in
  let t := dl_call d url tmp pooch in
  exists r d1,
    temporary_file dir (fun tmp =>
      call_downloader d url tmp pooch ;;;
      hash_matches tmp kh true ;;;
      shutil_move tmp fname) w
    = (r, mkWorld (self w) d1 (logs w ++ logged t)
            (calls w ++ [CallDownloader (dl_name d) url tmp pooch t]))
    /\ install_exit (disk w) tmp fname kh t r d1.
Proof.
  intros Hd tmp t.
  pose proof (temp_name_fresh w dir) as Hfresh. fold tmp in Hfresh.
  unfold temporary_file, bind at 1, named_temporary_file, is_dir.
  rewrite bool_decide_eq_true_2 by done. fold tmp.
  unfold try_finally, bind at 1, call_downloader. fold t.
  set (w2 := set_calls _ _).
  assert (file_content w2 tmp = Some (written t)) as Hc2.
  { unfold file_content, w2. simpl. by rewrite lookup_insert_eq. }
  assert (disk w2 !! tmp = Some (File (written t))) as Hl2.
  { unfold w2. simpl. by rewrite lookup_insert_eq. }
  assert (set_disk (delete tmp) w2
          = mkWorld (self w) (disk w) (logs w ++ logged t)
              (calls w ++ [CallDownloader (dl_name d) url tmp pooch t])) as Hw2.
  { unfold w2, set_disk, set_logs, set_calls. simpl.
    by rewrite disk_temp_removed. }
  destruct (raised t) as [e|] eqn:Hraised.
  { rewrite (cleanup_removes _ _ _ Hl2), Hw2.
    eexists _, _. split; [done|]. by apply install_transport_error. }
  unfold bind at 1. rewrite (hash_matches_content _ _ _ _ _ Hc2).
  destruct (content_check (written t) kh true) as [b|e] eqn:Hcheck; cycle 1.
  { rewrite (cleanup_removes _ _ _ Hl2), Hw2.
    eexists _, _. split; [done|]. by apply install_rejected. }
  apply content_check_strict_ok in Hcheck as Hb. destruct Hb as [-> _].
  unfold shutil_move. rewrite Hc2. unfold is_dir.
  assert (delete tmp (disk w2) = disk w) as Hdel.
  { unfold w2. simpl. by apply disk_temp_removed. }
  assert (forall f, set_disk f w2
          = mkWorld (self w) (f (disk w2)) (logs w ++ logged t)
              (calls w ++ [CallDownloader (dl_name d) url tmp pooch t])) as Hset by done.
  assert (forall q, q <> tmp -> disk w2 !! q = disk w !! q) as Hother.
  { intros q Hq. unfold w2. simpl. by rewrite !lookup_insert_ne. }
  case_bool_decide as Hdir.
  - assert (fname <> tmp) as Hne by (intros ->; congruence).
    rewrite Hother in Hdir by done.
    set (dst := PathStr.join fname (PathStr.basename tmp)).
    destruct (decide (dst = tmp)) as [Heq|Hdst].
    { assert (disk w2 !! dst = Some (File (written t))) as Hl3
        by (rewrite Heq; exact Hl2).
      unfold exists_on_disk. rewrite Hl3.
      rewrite bool_decide_eq_true_2 by eauto.
      rewrite (cleanup_removes _ _ _ Hl2), Hw2.
      eexists _, _. split; [done|].
      apply install_blocked; auto. }
    unfold exists_on_disk. rewrite Hother by done.
    destruct (disk w !! dst) as [n|] eqn:Hlook.
    { rewrite bool_decide_eq_true_2 by eauto.
      rewrite (cleanup_removes _ _ _ Hl2), Hw2.
      eexists _, _. split; [done|]. apply install_blocked; eauto. }
    rewrite bool_decide_eq_false_2 by (by intros [? ?]).
    rewrite Hset, Hdel. rewrite cleanup_absent.
    + eexists _, _. split; [done|]. by apply install_into_directory.
    + simpl. by rewrite lookup_insert_ne.
  - destruct (decide (fname = tmp)) as [->|Hne].
    + rewrite Hset, Hdel.
      rewrite (cleanup_removes tmp (written t)) by (simpl; apply lookup_insert_eq).
      unfold set_disk at 1. simpl. rewrite delete_insert_id by done.
      eexists _, _. split; [done|]. by apply install_onto_itself.
    + rewrite Hother in Hdir by done.
      rewrite Hset, Hdel. rewrite cleanup_absent.
      * eexists _, _. split; [done|]. by apply install_done.
      * simpl. by rewrite lookup_insert_ne.
Qed.

Lemma stream_download_exits (w : World) (url fname : string) (kh : option string)
    (d : Downloader) (pooch : option Pooch) :
  stream_exit w url fname kh d pooch
    (outcome (stream_download url fname kh d pooch) w)
    (after (stream_download url fname kh d pooch) w).
Proof.
  unfold outcome, after, stream_download.
  set (dir := PathStr.parent fname).
  rewrite <- bind_assoc.
  destruct (ensure_parent_cases dir w) as [[p Hp]|[[Hp Hex]|[Hnone Hp]]];
    simpl in Hp;
    [rewrite (bind_run_err _ _ _ _ _ Hp)|rewrite (bind_run_ok _ _ _ _ _ Hp)..].
  - apply stream_unprepared.
  - destruct (decide (disk w !! dir = Some Dir)) as [Hd|Hd].
    + destruct (transfer_exits dir url fname kh d pooch w Hd) as (r & d1 & -> & Hexit).
      simpl. eapply stream_transferred; [| |reflexivity|exact Hexit].
      * split; [done|by left].
      * apply temp_name_fresh.
    + rewrite transfer_unavailable by done. apply stream_unprepared.
  - set (w1 := set_disk _ w).
    assert (disk w1 !! dir = Some Dir) as Hd.
    { unfold w1. simpl. apply lookup_insert_eq. }
    destruct (transfer_exits dir url fname kh d pooch w1 Hd) as (r & d1 & -> & Hexit).
    simpl. eapply (stream_transferred _ _ _ _ _ _ (disk w1)); [| |reflexivity|exact Hexit].
    + split; [done|]. right. done.
    + apply temp_name_fresh.
Qed.

(** ** [download_action] and [fetch] step by step *)

Lemma os_makedirs_cases (p : string) (ok : bool) (w : World) :
  os_makedirs p ok w = (Err (IOFailure p), w) \/
  (os_makedirs p ok w = (Ok tt, w) /\ disk w !! p = Some Dir) \/
  (os_makedirs p ok w = (Ok tt, set_disk (mkdirs (p :: PathStr.ancestors p)) w)
   /\ forall q c, disk w !! q = Some (File c) -> q ∉ p :: PathStr.ancestors p).
Proof.
  unfold os_makedirs, is_dir. case_bool_decide as Hd.
  - destruct ok; [right; left; done|by left].
  - destruct (existsb _ _) eqn:Hex; [by left|].
    right. right. split; [done|]. intros q c Hq Hin.
    assert (existsb (is_file w) (p :: PathStr.ancestors p) = true) as Ht; [|congruence].
    apply existsb_exists. exists q. split; [by apply list_elem_of_In|].
    unfold is_file, file_content. rewrite Hq. by apply bool_decide_eq_true_2.
Qed.

Lemma os_makedirs_self (p : string) (ok : bool) (w : World) :
  self (after (os_makedirs p ok) w) = self w
  /\ logs (after (os_makedirs p ok) w) = logs w
  /\ calls (after (os_makedirs p ok) w) = calls w.
Proof.
  unfold after.
  destruct (os_makedirs_cases p ok w) as [->|[[-> _]|[-> _]]]; done.
Qed.

(** [download_action] as one equation: the world is returned as it was, and
    the action is decided by existence and by the lenient comparison, whose
    failure is the failure of [download_action]. *)
Lemma download_action_run (p : string) (kh : option string) (w : World) :
  download_action p kh w =
  (if negb (exists_on_disk w p) then Ok ("download", "Downloading")
   else match outcome (hash_matches p kh false) w with
        | Ok false => Ok ("update", "Updating")
        | Ok true => Ok ("fetch", "Fetching")
        | Err e => Err e
        end, w).
Proof.
  unfold download_action, bind at 1, path_exists, gets.
  destruct (exists_on_disk w p); simpl; [|done].
  unfold bind, outcome.
  pose proof (hash_matches_after p kh false w) as Hw. unfold after in Hw.
  destruct (hash_matches p kh false w) as [[[|]|e] w']; simpl in *; by subst.
Qed.

Lemma assert_file_in_registry_ok (fname : string) (kh : option string) (w : World) :
  registry (self w) !! fname = Some kh ->
  _assert_file_in_registry fname w = (Ok tt, w).
Proof.
  intros H. unfold _assert_file_in_registry, bind, gets.
  rewrite H. by rewrite bool_decide_eq_true_2 by eauto.
Qed.

Lemma assert_file_in_registry_err (fname : string) (w : World) :
  registry (self w) !! fname = None ->
  _assert_file_in_registry fname w = (Err (NotInRegistry fname), w).
Proof.
  intros H. unfold _assert_file_in_registry, bind, gets.
  rewrite H. by rewrite bool_decide_eq_false_2 by (by intros [? ?]).
Qed.

Lemma get_url_ok (fname : string) (kh : option string) (w : World) :
  registry (self w) !! fname = Some kh ->
  get_url fname w = (Ok (fetch_url w fname), w).
Proof.
  intros H. unfold get_url.
  by rewrite (bind_run_ok _ _ _ _ _ (assert_file_in_registry_ok _ _ _ H)).
Qed.

Lemma registry_getitem_ok (fname : string) (kh : option string) (w : World) :
  registry (self w) !! fname = Some kh ->
  registry_getitem fname w = (Ok kh, w).
Proof. intros H. unfold registry_getitem, bind, gets. by rewrite H. Qed.

Lemma transfer_phase_run (msg url target : string) (kh : option string)
    (downloader : option Downloader) (w : World) :
  (log_info msg ;;;
   d <~ match downloader with
        | None => choose_downloader url
        | Some d => ret d
        end ;
   pup <~ gets self ;
   stream_download url target kh d (Some pup)) w
  = stream_download url target kh
      (select_downloader downloader url (set_logs (fun l => l ++ [msg]) w)).1
      (Some (self w))
      (select_downloader downloader url (set_logs (fun l => l ++ [msg]) w)).2.
Proof. destruct downloader; reflexivity. Qed.

Lemma fetch_exits (w : World) (fname : string) (processor : option Processor)
    (downloader : option Downloader) :
  fetch_exit w fname processor downloader
    (outcome (fetch fname processor downloader) w)
    (after (fetch fname processor downloader) w).
Proof.
  unfold outcome, after, fetch.
  destruct (registry (self w) !! fname) as [kh|] eqn:Hreg; cycle 1.
  { rewrite (bind_run_err _ _ _ _ _ (assert_file_in_registry_err _ _ Hreg)).
    by apply fetch_unknown. }
  rewrite (bind_run_ok _ _ _ _ _ (assert_file_in_registry_ok _ _ _ Hreg)).
  rewrite (bind_run_ok abspath _ w w (fetch_root w)) by done.
  destruct (os_makedirs (fetch_root w) true w) as [[[]|e] w1] eqn:Hmk; cycle 1.
  { assert (w1 = w) as ->.
    { destruct (os_makedirs_cases (fetch_root w) true w) as [H|[[H _]|[H _]]];
        rewrite H in Hmk; congruence. }
    rewrite (bind_run_err _ _ _ _ _ Hmk). by eapply fetch_no_storage. }
  rewrite (bind_run_ok _ _ _ _ _ Hmk).
  assert (self w1 = self w) as Hself.
  { pose proof (os_makedirs_self (fetch_root w) true w) as [H _].
    unfold after in H. by rewrite Hmk in H. }
  assert (registry (self w1) !! fname = Some kh) as Hreg1 by (by rewrite Hself).
  rewrite (bind_run_ok _ _ _ _ _ (get_url_ok _ _ _ Hreg1)).
  rewrite (bind_run_ok _ _ _ _ _ (registry_getitem_ok _ _ _ Hreg1)).
  assert (fetch_url w1 fname = fetch_url w fname) as -> by (unfold fetch_url; by rewrite Hself).
  fold (fetch_target w fname).
  set (target := fetch_target w fname). set (url := fetch_url w fname).
  pose proof (download_action_run target kh w1) as Hda.
  assert (forall action verb,
    needs_transfer w1 target kh action verb ->
    in_tuple action ["download"; "update"] = true ->
    download_action target kh w1 = (Ok (action, verb), w1) ->
    fetch_exit w fname processor downloader
      ((av <~ download_action target kh;
        (let '(action, verb) := av in
          (if in_tuple action ["download"; "update"]
           then
            log_info (verb +:+ " file '" +:+ fname +:+ "' from '" +:+
                      url +:+ "' to '" +:+ fetch_root w +:+ "'.");;;
            downloader0 <~ match downloader with
                           | Some d => ret d
                           | None => choose_downloader url
                           end;
            pup <~ gets self;
            stream_download url target kh downloader0 (Some pup)
           else ret ());;;
          match processor with
          | Some p => call_processor p target action
          | None => ret (VStr target)
          end)) w1).1
      ((av <~ download_action target kh;
        (let '(action, verb) := av in
          (if in_tuple action ["download"; "update"]
           then
            log_info (verb +:+ " file '" +:+ fname +:+ "' from '" +:+
                      url +:+ "' to '" +:+ fetch_root w +:+ "'.");;;
            downloader0 <~ match downloader with
                           | Some d => ret d
                           | None => choose_downloader url
                           end;
            pup <~ gets self;
            stream_download url target kh downloader0 (Some pup)
           else ret ());;;
          match processor with
          | Some p => call_processor p target action
          | None => ret (VStr target)
          end)) w1).2) as Htransfer.
  { intros action verb Hneed Hin Hrun.
    rewrite (bind_run_ok _ _ _ _ _ Hrun). cbv beta iota. rewrite Hin.
    change (match processor with
            | Some p => call_processor p target action
            | None => ret (VStr target)
            end) with (deliver processor target action).
    pose proof (transfer_phase_run
      (fetch_message verb fname url (fetch_root w)) url target kh downloader w1) as Hphase.
    unfold fetch_message in Hphase.
    destruct (select_downloader downloader url _) as [d w3] eqn:Hsel.
    simpl in Hphase. rewrite Hself in Hphase.
    destruct (stream_download url target kh d (Some (self w)) w3)
      as [[[]|e] w4] eqn:Hstream.
    - rewrite (bind_run_ok _ _ _ _ _ Hphase).
      destruct (deliver processor target action w4) as [r w5] eqn:Hdel.
      simpl. by eapply fetch_transferred.
    - rewrite (bind_run_err _ _ _ _ _ Hphase).
      simpl. by eapply fetch_transfer_failed. }
  destruct (exists_on_disk w1 target) eqn:Hex; simpl in Hda.
  - destruct (outcome (hash_matches target kh false) w1) as [[|]|e] eqn:Hhash.
    + rewrite (bind_run_ok _ _ _ _ _ Hda). cbv beta iota.
      change (in_tuple "fetch" ["download"; "update"]) with false. cbv iota.
      change (match processor with
              | Some p => call_processor p target "fetch"
              | None => ret (VStr target)
              end) with (deliver processor target "fetch").
      rewrite (bind_run_ok (ret tt) _ w1 w1 tt) by done.
      destruct (deliver processor target "fetch" w1) as [r w2] eqn:Hdel.
      simpl. by eapply fetch_cached.
    + apply (Htransfer "update" "Updating"); [|done|done].
      right. done.
    + rewrite (bind_run_err _ _ _ _ _ Hda). simpl. by eapply fetch_unresolved.
  - apply (Htransfer "download" "Downloading"); [|done|done].
    left. done.
Qed.

(** ** The claims *)

Lemma fetch_unknown_run (w : World) (fname : string)
    (processor : option Processor) (downloader : option Downloader) :
  registry (self w) !! fname = None ->
  fetch fname processor downloader w = (Err (NotInRegistry fname), w).
Proof.
  intros Hreg. unfold fetch.
  by rewrite (bind_run_err _ _ _ _ _ (assert_file_in_registry_err _ _ Hreg)).
Qed.

(** C4: for every name that is not a key of the registry, [fetch] fails with
    [NotInRegistry], whatever the local file system holds (in particular
    whether or not something exists at the target path), whatever the
    processor and the downloader. *)
Theorem fetch_not_in_registry (pup : Pooch) (dk : gmap string Node)
    (lg : list string) (cs : list Call) (fname : string)
    (processor : option Processor) (downloader : option Downloader) :
  registry pup !! fname = None ->
  outcome (fetch fname processor downloader) (mkWorld pup dk lg cs)
  = Err (NotInRegistry fname).
Proof.
  intros Hreg. unfold outcome.
  by rewrite (fetch_unknown_run (mkWorld pup dk lg cs) fname _ _ Hreg).
Qed.

(** C9: when the name is absent from the registry, [fetch] raises before any
    side effect: the world it leaves is the world it found, so the storage
    root has not been created, no downloader, processor or
    [choose_downloader] has been called, nothing has been logged, and the
    disk and the registry are as they were. *)
Theorem fetch_not_in_registry_no_effect (w : World) (fname : string)
    (processor : option Processor) (downloader : option Downloader) :
  registry (self w) !! fname = None ->
  after (fetch fname processor downloader) w = w
  /\ disk (after (fetch fname processor downloader) w) !! fetch_root w
     = disk w !! fetch_root w
  /\ new_calls w (after (fetch fname processor downloader) w) = []
  /\ logs (after (fetch fname processor downloader) w) = logs w
  /\ self (after (fetch fname processor downloader) w) = self w.
Proof.
  intros Hreg. unfold after, new_calls.
  rewrite (fetch_unknown_run w fname _ _ Hreg). simpl.
  repeat split. by rewrite drop_all.
Qed.

(** C3, as amended: [download_action] returns [download] when the path does
    not exist, [update] when it exists and the lenient comparison returns
    false, [fetch] when it exists and the comparison returns true; when the
    path exists and the comparison itself fails (an unsupported algorithm
    name, or a path that cannot be read as a file) [download_action] fails
    with that error.  In every case the world is left as it was. *)
Theorem download_action_decides (path : string) (known_hash : option string)
    (w : World) :
  download_action path known_hash w =
  (if negb (exists_on_disk w path) then Ok ("download", "Downloading")
   else match outcome (hash_matches path known_hash false) w with
        | Ok false => Ok ("update", "Updating")
        | Ok true => Ok ("fetch", "Fetching")
        | Err e => Err e
        end, w).
Proof. apply download_action_run. Qed.

(** A lenient comparison that returns [False] has read a regular file. *)
Lemma hash_matches_false_is_file (f : string) (kh : option string) (w : World) :
  outcome (hash_matches f kh false) w = Ok false ->
  exists c, disk w !! f = Some (File c).
Proof.
  unfold outcome, hash_matches.
  destruct kh as [[|a spec]|]; try done.
  destruct (parse_hash_spec _) as [alg expected].
  unfold bind, file_hash. destruct (digest alg); [|done].
  unfold bind, read_file, file_content.
  destruct (disk w !! f) as [[c|]|]; try done. intros _. by exists c.
Qed.

(** What a successful [os.makedirs(root, exist_ok=True)] leaves. *)
Lemma os_makedirs_ok (p : string) (w w1 : World) :
  os_makedirs p true w = (Ok tt, w1) ->
  self w1 = self w /\ logs w1 = logs w /\ calls w1 = calls w /\
  disk w1 !! p = Some Dir /\
  forall q, q ∉ p :: PathStr.ancestors p -> disk w1 !! q = disk w !! q.
Proof.
  intros H.
  destruct (os_makedirs_cases p true w) as [H1|[[H1 Hd]|[H1 _]]];
    rewrite H1 in H; [done| |]; injection H as <-.
  - done.
  - repeat split.
    + simpl. apply lookup_insert_eq.
    + intros q Hq. simpl. by apply (mkdirs_lookup_notin (p :: PathStr.ancestors p)).
Qed.

Lemma root_not_target (root fname x : string) :
  x ∈ root :: PathStr.ancestors root -> x <> PathStr.join root fname.
Proof.
  intros Hx ->. pose proof (join_length root fname) as Hlen.
  apply elem_of_cons in Hx as [Hx|Hx].
  - rewrite Hx in Hlen. lia.
  - apply ancestors_shorter in Hx. lia.
Qed.

Lemma select_downloader_world (downloader : option Downloader) (url : string)
    (w : World) (d : Downloader) (w3 : World) :
  select_downloader downloader url w = (d, w3) ->
  self w3 = self w /\ disk w3 = disk w /\ logs w3 = logs w /\
  (calls w3 = calls w \/
   (downloader = None /\ calls w3 = calls w ++ [CallChooseDownloader url])) /\
  (forall d', downloader = Some d' -> d = d' /\ w3 = w).
Proof.
  unfold select_downloader. destruct downloader as [d'|]; intros [= <- <-]; simpl.
  - split; [done|]. split; [done|]. split; [done|]. split; [by left|].
    by intros ? [= <-].
  - split; [done|]. split; [done|]. split; [done|]. split; [by right|].
    by intros ? [=].
Qed.

(** A transfer that ends well has put the verified bytes at the target, as
    long as the target was not a directory and is not the temporary file
    itself. *)
Lemma install_ok_target (d0 d1 : gmap string Node) (tmp fname : string)
    (kh : option string) (t : Transfer) :
  install_exit d0 tmp fname kh t (Ok tt) d1 ->
  d0 !! fname <> Some Dir -> fname <> tmp ->
  d1 = <[fname := File (written t)]> d0 /\
  raised t = None /\
  content_check (written t) kh false = Ok true.
Proof.
  intros Hexit Hdir Hne. inversion Hexit; subst; try done.
  split; [done|]. split; [done|].
  match goal with H : content_check _ _ true = Ok true |- _ =>
    by apply content_check_strict_ok in H as [_ ?] end.
Qed.

Lemma prepared_lookup (w : World) (fname : string) (d0 : gmap string Node) (q : string) :
  prepared w fname d0 ->
  (q ∉ PathStr.parent fname :: PathStr.ancestors (PathStr.parent fname) ->
   d0 !! q = disk w !! q)
  /\ (disk w !! q = Some Dir -> d0 !! q = Some Dir).
Proof.
  intros [_ [->|[_ ->]]]; [done|]. split.
  - apply mkdirs_lookup_notin.
  - intros Hq.
    destruct (decide (q ∈ PathStr.parent fname :: PathStr.ancestors (PathStr.parent fname))).
    + by apply mkdirs_lookup_in.
    + by rewrite mkdirs_lookup_notin.
Qed.

Lemma temp_name_not_target (w : World) (target : string) :
  PathStr.strip_prefix (temp_prefix (PathStr.parent target)) target = None ->
  target <> temp_name w (PathStr.parent target).
Proof.
  intros Hname Heq. rewrite Heq in Hname at 2.
  unfold temp_name in Hname. by rewrite strip_prefix_app in Hname.
Qed.

(** A [stream_download] that returns has called the downloader once, had its
    bytes accepted by the strict comparison and left them at the target;
    directories elsewhere are still directories. *)
Lemma stream_download_installs (w3 w4 : World) (url target : string)
    (kh : option string) (d : Downloader) (pooch : option Pooch) :
  stream_download url target kh d pooch w3 = (Ok tt, w4) ->
  target <> EmptyString ->
  disk w3 !! target <> Some Dir ->
  (disk w3 !! target <> None \/
   PathStr.strip_prefix (temp_prefix (PathStr.parent target)) target = None) ->
  exists tmp,
    let t := dl_call d url tmp pooch in
    raised t = None /\
    content_check (written t) kh false = Ok true /\
    disk w4 !! target = Some (File (written t)) /\
    self w4 = self w3 /\
    calls w4 = calls w3 ++ [CallDownloader (dl_name d) url tmp pooch t] /\
    (forall q, q <> target -> disk w3 !! q = Some Dir -> disk w4 !! q = Some Dir).
Proof.
  intros Hrun Hne Hnotdir Htmp.
  pose proof (stream_download_exits w3 url target kh d pooch) as Hexit.
  unfold outcome, after in Hexit. rewrite Hrun in Hexit. simpl in Hexit.
  inversion Hexit as [|d0 tmp r d1 Hprep Hfresh Hname Hinst]; subst.
  destruct (prepared_lookup w3 target d0 target Hprep) as [Hsame _].
  assert (d0 !! target = disk w3 !! target) as Htarget.
  { apply Hsame. intros Hin. by eapply target_not_above. }
  assert (target <> temp_name (set_disk (fun _ => d0) w3) (PathStr.parent target)) as Hdiff.
  { destruct Htmp as [Hthere|Hform].
    - intros Heq. rewrite <- Heq in Hfresh. congruence.
    - by apply temp_name_not_target. }
  apply install_ok_target in Hinst as (-> & Hraised & Hcheck);
    [|by rewrite Htarget|done].
  eexists. repeat split; try done.
  - simpl. apply lookup_insert_eq.
  - intros q Hq Hdir. simpl. rewrite lookup_insert_ne by done.
    by apply (prepared_lookup w3 target d0 q Hprep).
Qed.

(** *** The directory and the name of the temporary file *)

(** They are read off the disk alone. *)
Lemma prepared_disk_same (w w' : World) (fname : string) :
  disk w' = disk w ->
  parent_ready w' fname = parent_ready w fname /\
  prepared_disk w' fname = prepared_disk w fname /\
  stream_temporary w' fname = stream_temporary w fname.
Proof.
  intros H.
  unfold stream_temporary, temp_name, temp_suffixes, prepared_disk, parent_ready,
    exists_on_disk, is_dir, is_file, file_content.
  simpl. by rewrite H.
Qed.

Lemma prepared_disk_lookup (w : World) (fname q : string) :
  (q ∉ PathStr.parent fname :: PathStr.ancestors (PathStr.parent fname) ->
   prepared_disk w fname !! q = disk w !! q)
  /\ (disk w !! q = Some Dir -> prepared_disk w fname !! q = Some Dir).
Proof.
  unfold prepared_disk. destruct (exists_on_disk w (PathStr.parent fname)); [done|].
  split.
  - apply mkdirs_lookup_notin.
  - intros Hq.
    destruct (decide (q ∈ PathStr.parent fname :: PathStr.ancestors (PathStr.parent fname))).
    + by apply mkdirs_lookup_in.
    + by rewrite mkdirs_lookup_notin.
Qed.

(** The temporary file is new on the disk it is made on. *)
Lemma stream_temporary_fresh (w : World) (fname : string) :
  prepared_disk w fname !! stream_temporary w fname = None.
Proof.
  apply (temp_name_fresh (set_disk (fun _ => prepared_disk w fname) w)).
Qed.

(** It cannot take the name of something that is there already. *)
Lemma stream_temporary_present (w : World) (target : string) :
  target <> EmptyString ->
  disk w !! target <> None ->
  target <> stream_temporary w target.
Proof.
  intros Hne Hthere Heq.
  pose proof (stream_temporary_fresh w target) as Hfresh.
  rewrite <- Heq in Hfresh.
  rewrite (proj1 (prepared_disk_lookup w target target)) in Hfresh; [done|].
  intros Hx. by apply (target_not_above target target Hne Hx).
Qed.

(** And a name that is not of the form of a temporary name is never taken. *)
Lemma stream_temporary_form (w : World) (target : string) :
  PathStr.strip_prefix (temp_prefix (PathStr.parent target)) target = None ->
  target <> stream_temporary w target.
Proof. apply temp_name_not_target. Qed.

Lemma fetch_temporary_form (w : World) (fname : string) :
  PathStr.strip_prefix (temp_prefix (PathStr.parent (fetch_target w fname)))
    (fetch_target w fname) = None ->
  fetch_target w fname <> fetch_temporary w fname.
Proof. apply stream_temporary_form. Qed.

(** [stream_download] as one run: with the directory of the target to be
    had, the downloader is called on the temporary file and the
    installation takes one of its exits; without it, the call fails on the
    directory and nothing has happened. *)
Lemma stream_download_run (w : World) (url fname : string) (kh : option string)
    (d : Downloader) (pooch : option Pooch) :
  let tmp := stream_temporary w fname in
  let t := dl_call d url tmp pooch in
  if parent_ready w fname then
    prepared_disk w fname !! PathStr.parent fname = Some Dir /\
    exists r d1,
      stream_download url fname kh d pooch w
      = (r, mkWorld (self w) d1 (logs w ++ logged t)
              (calls w ++ [CallDownloader (dl_name d) url tmp pooch t]))
      /\ install_exit (prepared_disk w fname) tmp fname kh t r d1
  else
    stream_download url fname kh d pooch w
    = (Err (IOFailure (PathStr.parent fname)), w).
Proof.
  intros tmp t. unfold stream_download. rewrite <- bind_assoc.
  subst t tmp. unfold stream_temporary, parent_ready, prepared_disk.
  set (dir := PathStr.parent fname).
  destruct (exists_on_disk w dir) eqn:Hex.
  - assert ((e <~ path_exists dir ;
             if negb e then os_makedirs dir false else ret tt) w = (Ok tt, w)) as Hprep.
    { unfold bind, path_exists, gets. by rewrite Hex. }
    rewrite (bind_run_ok _ _ _ _ _ Hprep).
    unfold is_dir. case_bool_decide as Hd.
    + split; [done|].
      apply (transfer_exits dir url fname kh d pooch w Hd).
    + by apply transfer_unavailable.
  - assert (disk w !! dir = None) as Hnone.
    { unfold exists_on_disk in Hex. apply bool_decide_eq_false in Hex.
      destruct (disk w !! dir) eqn:E; [|done]. exfalso. apply Hex. by eexists. }
    destruct (existsb (is_file w) (dir :: PathStr.ancestors dir)) eqn:Hfiles; simpl.
    + assert ((e <~ path_exists dir ;
               if negb e then os_makedirs dir false else ret tt) w
              = (Err (IOFailure dir), w)) as Hprep.
      { unfold bind, path_exists, gets. rewrite Hex. simpl.
        unfold os_makedirs, is_dir. rewrite Hnone.
        rewrite bool_decide_eq_false_2 by done. by rewrite Hfiles. }
      by rewrite (bind_run_err _ _ _ _ _ Hprep).
    + assert ((e <~ path_exists dir ;
               if negb e then os_makedirs dir false else ret tt) w
              = (Ok tt, set_disk (mkdirs (dir :: PathStr.ancestors dir)) w)) as Hprep.
      { unfold bind, path_exists, gets. rewrite Hex. simpl.
        unfold os_makedirs, is_dir. rewrite Hnone.
        rewrite bool_decide_eq_false_2 by done. by rewrite Hfiles. }
      rewrite (bind_run_ok _ _ _ _ _ Hprep).
      set (w1 := set_disk (mkdirs (dir :: PathStr.ancestors dir)) w).
      assert (disk w1 !! dir = Some Dir) as Hd.
      { unfold w1. simpl. apply lookup_insert_eq. }
      split; [exact Hd|].
      apply (transfer_exits dir url fname kh d pooch w1 Hd).
Qed.

(** A [stream_download] that returns has called the downloader once, had its
    bytes accepted by the strict comparison and left them at the target, as
    long as the temporary file was not given the target's own name. *)
Lemma stream_download_installs_at (w3 w4 : World) (url target : string)
    (kh : option string) (d : Downloader) (pooch : option Pooch) :
  stream_download url target kh d pooch w3 = (Ok tt, w4) ->
  target <> EmptyString ->
  disk w3 !! target <> Some Dir ->
  target <> stream_temporary w3 target ->
  let t := dl_call d url (stream_temporary w3 target) pooch in
  raised t = None /\
  content_check (written t) kh false = Ok true /\
  disk w4 !! target = Some (File (written t)) /\
  self w4 = self w3 /\
  (forall q, q <> target -> disk w3 !! q = Some Dir -> disk w4 !! q = Some Dir).
Proof.
  intros Hrun Hne Hnotdir Hdiff t.
  pose proof (stream_download_run w3 url target kh d pooch) as Hexit.
  simpl in Hexit. fold t in Hexit.
  destruct (parent_ready w3 target); [|congruence].
  destruct Hexit as (_ & r & d1 & Hrun' & Hinst).
  rewrite Hrun in Hrun'. injection Hrun' as <- ->.
  apply install_ok_target in Hinst as (-> & Hraised & Hcheck); [|
    rewrite (proj1 (prepared_disk_lookup w3 target target)); [done|];
    intros Hx; by apply (target_not_above target target Hne Hx) | done].
  repeat split; try done.
  - simpl. apply lookup_insert_eq.
  - intros q Hq Hdir. simpl. rewrite lookup_insert_ne by done.
    by apply (prepared_disk_lookup w3 target q).
Qed.

Lemma fetch_success_state (w : World) (fname : string)
    (downloader : option Downloader) (v : Value) :
  outcome (fetch fname None downloader) w = Ok v ->
  (exists_on_disk w (fetch_target w fname) = false ->
   fetch_target w fname <> fetch_temporary w fname) ->
  exists kh,
    registry (self w) !! fname = Some kh /\
    self (after (fetch fname None downloader) w) = self w /\
    v = VStr (fetch_target w fname) /\
    disk (after (fetch fname None downloader) w) !! fetch_root w = Some Dir /\
    exists_on_disk (after (fetch fname None downloader) w) (fetch_target w fname) = true /\
    outcome (hash_matches (fetch_target w fname) kh false)
      (after (fetch fname None downloader) w) = Ok true.
Proof.
  intros Hok Hname.
  pose proof (fetch_exits w fname None downloader) as Hexit.
  rewrite Hok in Hexit.
  unfold fetch_temporary in Hname.
  set (target := fetch_target w fname) in *.
  inversion Hexit as [| | |kh w1 r w2 Hreg Hmk Hex Hhash Hdel
                      | |kh w1 action verb d w3 w4 r w5 Hreg Hmk Hneed Hsel Hstream Hdel];
    subst.
  - (* served from the cache *)
    apply os_makedirs_ok in Hmk as (Hself & _ & _ & Hroot & _).
    simpl in Hdel. injection Hdel as <- <-.
    exists kh. repeat split; try done.
  - (* transferred *)
    unfold after at 1 in Hname. rewrite Hmk in Hname. simpl in Hname.
    apply os_makedirs_ok in Hmk as (Hself & _ & _ & Hroot & Hkept).
    simpl in Hdel. injection Hdel as <- Hw5.
    apply select_downloader_world in Hsel as (Hself3 & Hdisk3 & _).
    simpl in Hself3, Hdisk3.
    assert (disk w1 !! target = disk w !! target) as Htarget.
    { apply Hkept. intros Hx.
      by apply (root_not_target (fetch_root w) fname target Hx). }
    assert (target <> stream_temporary w3 target) as Hdiff.
    { destruct Hneed as [(Hex & _)|(_ & Hhash & _)].
      - rewrite (proj2 (proj2 (prepared_disk_same w1 w3 target Hdisk3))).
        apply Hname. unfold exists_on_disk in *. by rewrite <- Htarget.
      - apply hash_matches_false_is_file in Hhash as [c Hc].
        apply stream_temporary_present; [apply join_not_empty|].
        unfold target. by rewrite Hdisk3, Hc. }
    apply stream_download_installs_at in Hstream
      as (Hraised & Hcheck & Hfile & Hself4 & Hdirs); [|apply join_not_empty| |done].
    + exists kh. rewrite <- Hw5. fold target in Hfile, Hraised, Hcheck.
      set (t := dl_call d (fetch_url w fname) (stream_temporary w3 target) (Some (self w))) in *.
      assert (file_content w4 target = Some (written t)) as Hc.
      { unfold file_content. by rewrite Hfile. }
      repeat split; try done.
      * congruence.
      * apply Hdirs; [|by rewrite Hdisk3].
        apply (root_not_target (fetch_root w) fname), list_elem_of_here.
      * unfold exists_on_disk. rewrite Hfile.
        by apply bool_decide_eq_true_2.
      * unfold outcome. by rewrite (hash_matches_content _ _ _ _ _ Hc).
    + rewrite Hdisk3. destruct Hneed as [(Hex & _)|(_ & Hhash & _)].
      * unfold exists_on_disk in Hex. apply bool_decide_eq_false in Hex.
        intros Hd. apply Hex. by eexists.
      * apply hash_matches_false_is_file in Hhash as [c Hc]. congruence.
Qed.


Lemma os_makedirs_existing (p : string) (w : World) :
  disk w !! p = Some Dir -> os_makedirs p true w = (Ok tt, w).
Proof.
  intros H. unfold os_makedirs, is_dir. by rewrite bool_decide_eq_true_2.
Qed.

Lemma download_action_fetch (p : string) (kh : option string) (w : World) :
  outcome (download_action p kh) w = Ok ("fetch", "Fetching") ->
  exists_on_disk w p = true /\ outcome (hash_matches p kh false) w = Ok true.
Proof.
  unfold outcome at 1. rewrite download_action_run. simpl.
  destruct (exists_on_disk w p); simpl; [|done].
  by destruct (outcome (hash_matches p kh false) w) as [[|]|e].
Qed.

(** With the file in place and accepted, [fetch] is its last step alone. *)
Lemma fetch_cached_run (w : World) (fname : string) (kh : option string)
    (processor : option Processor) (downloader : option Downloader) :
  registry (self w) !! fname = Some kh ->
  disk w !! fetch_root w = Some Dir ->
  exists_on_disk w (fetch_target w fname) = true ->
  outcome (hash_matches (fetch_target w fname) kh false) w = Ok true ->
  fetch fname processor downloader w
  = deliver processor (fetch_target w fname) "fetch" w.
Proof.
  intros Hreg Hroot Hex Hhash.
  pose proof (fetch_exits w fname processor downloader) as Hexit.
  pose proof (os_makedirs_existing _ _ Hroot) as Hmk.
  unfold outcome, after in Hexit.
  destruct (fetch fname processor downloader w) as [r w'].
  simpl in Hexit.
  inversion Hexit as [Hreg'|kh' e Hreg' Hmk'|kh' w1 e Hreg' Hmk' Hex' Hhash'
                      |kh' w1 r' w2 Hreg' Hmk' Hex' Hhash' Hdel
                      |kh' w1 action verb d w3 e w4 Hreg' Hmk' Hneed
                      |kh' w1 action verb d w3 w4 r' w5 Hreg' Hmk' Hneed];
    subst; try congruence.
  all: rewrite Hmk in Hmk'; injection Hmk' as <-.
  all: assert (kh' = kh) as -> by congruence.
  all: destruct Hneed as [(? & _)|(_ & ? & _)]; congruence.
Qed.

Lemma new_calls_app (w w' : World) (cs : list Call) :
  calls w' = calls w ++ cs -> new_calls w w' = cs.
Proof. intros H. unfold new_calls. rewrite H. by rewrite drop_app_length. Qed.

Lemma deliver_silent (processor : option Processor) (target action : string)
    (w : World) :
  logs (after (deliver processor target action) w) = logs w /\
  filter (fun c => is_processor_call c = false)
    (new_calls w (after (deliver processor target action) w)) = [].
Proof.
  unfold after, deliver. destruct processor as [p|]; simpl.
  - unfold call_processor. destruct (proc_call p _ _ _ _) as [fs r]. simpl.
    split; [done|]. by rewrite (new_calls_app _ _ [CallProcessor (proc_name p) target action (self w) r]).
  - split; [done|]. by rewrite (new_calls_app _ _ []) by (simpl; by rewrite app_nil_r).
Qed.

(** C5: when the resolved action is fetch-only (the local file exists and is
    accepted by the lenient comparison), [fetch] returns the target path
    and leaves the world as it found it: nothing is logged, and neither a
    downloader nor [choose_downloader] is called; with a processor, the
    processor's call is the only call made.  In particular the world left
    by a successful [fetch] is one in which a second [fetch] of the same name
    returns the same path and changes nothing (a first download whose
    temporary file was given the very name of the target set aside). *)
Theorem fetch_only_is_silent (w : World) (fname : string)
    (processor : option Processor) (downloader : option Downloader) :
  (forall known_hash,
     registry (self w) !! fname = Some known_hash ->
     disk w !! fetch_root w = Some Dir ->
     outcome (download_action (fetch_target w fname) known_hash) w
       = Ok ("fetch", "Fetching") ->
     fetch fname None downloader w = (Ok (VStr (fetch_target w fname)), w) /\
     logs (after (fetch fname processor downloader) w) = logs w /\
     filter (fun c => is_processor_call c = false)
       (new_calls w (after (fetch fname processor downloader) w)) = [])
  /\
  (forall w0 downloader0 v,
     outcome (fetch fname None downloader0) w0 = Ok v ->
     (exists_on_disk w0 (fetch_target w0 fname) = false ->
      fetch_target w0 fname <> fetch_temporary w0 fname) ->
     w = after (fetch fname None downloader0) w0 ->
     fetch fname None downloader w = (Ok v, w)).
Proof.
  split.
  - intros kh Hreg Hroot Hact.
    apply download_action_fetch in Hact as [Hex Hhash].
    split; [by rewrite (fetch_cached_run w fname kh None downloader)|].
    unfold after.
    rewrite (fetch_cached_run w fname kh processor downloader) by done.
    apply deliver_silent.
  - intros w0 downloader0 v Hok Hname ->.
    destruct (fetch_success_state w0 fname downloader0 v Hok Hname)
      as (kh & Hreg & Hself & -> & Hroot & Hex & Hhash).
    set (w' := after (fetch fname None downloader0) w0) in *.
    assert (fetch_root w' = fetch_root w0) as Hr by (unfold fetch_root; by rewrite Hself).
    assert (fetch_target w' fname = fetch_target w0 fname) as Ht
      by (unfold fetch_target; by rewrite Hr).
    rewrite (fetch_cached_run w' fname kh None downloader); rewrite ?Ht, ?Hr, ?Hself; done.
Qed.

(** The calls a run of [fetch] adds to the record, exit by exit. *)
Lemma stream_download_calls (w w' : World) (url target : string)
    (kh : option string) (d : Downloader) (pooch : option Pooch) (r : Result unit) :
  stream_download url target kh d pooch w = (r, w') ->
  self w' = self w /\
  (calls w' = calls w \/
   exists tmp, calls w' = calls w
     ++ [CallDownloader (dl_name d) url tmp pooch (dl_call d url tmp pooch)]).
Proof.
  intros Hrun.
  pose proof (stream_download_exits w url target kh d pooch) as Hexit.
  unfold outcome, after in Hexit. rewrite Hrun in Hexit. simpl in Hexit.
  inversion Hexit; subst; simpl.
  - split; [done|by left].
  - split; [done|]. right. by eexists.
Qed.

Lemma fetch_transfer_calls (w w1 w3 w4 : World) (downloader : option Downloader)
    (msg url target : string) (kh : option string) (d : Downloader)
    (pooch : option Pooch) (r : Result unit) :
  os_makedirs (fetch_root w) true w = (Ok tt, w1) ->
  select_downloader downloader url (set_logs (fun l => l ++ [msg]) w1) = (d, w3) ->
  stream_download url target kh d pooch w3 = (r, w4) ->
  self w4 = self w /\
  exists chosen transferred,
    calls w4 = calls w ++ chosen ++ transferred /\
    (chosen = [] \/ (downloader = None /\ chosen = [CallChooseDownloader url])) /\
    (transferred = [] \/
     exists tmp, transferred
       = [CallDownloader (dl_name d) url tmp pooch (dl_call d url tmp pooch)]) /\
    (forall d', downloader = Some d' -> d = d').
Proof.
  intros Hmk Hsel Hstream.
  apply os_makedirs_ok in Hmk as (Hself1 & _ & Hcalls1 & _).
  apply select_downloader_world in Hsel as (Hself3 & _ & _ & Hcalls3 & Hsame).
  simpl in Hself3, Hcalls3.
  apply stream_download_calls in Hstream as (Hself4 & Hcalls4).
  split; [congruence|].
  exists (drop (length (calls w)) (calls w3)), (drop (length (calls w3)) (calls w4)).
  assert (calls w3 = calls w ++ drop (length (calls w)) (calls w3)) as H3.
  { destruct Hcalls3 as [->|[_ ->]]; rewrite Hcalls1.
    - by rewrite drop_all, app_nil_r.
    - by rewrite drop_app_length. }
  assert (calls w4 = calls w3 ++ drop (length (calls w3)) (calls w4)) as H4.
  { destruct Hcalls4 as [->|[tmp ->]].
    - by rewrite drop_all, app_nil_r.
    - by rewrite drop_app_length. }
  split; [by rewrite app_assoc, <- H3|].
  split; [|split].
  - destruct Hcalls3 as [->|[-> ->]]; rewrite Hcalls1.
    + left. by rewrite drop_all.
    + right. by rewrite drop_app_length.
  - destruct Hcalls4 as [->|[tmp ->]].
    + left. by rewrite drop_all.
    + right. exists tmp. by rewrite drop_app_length.
  - intros d' Hd. by apply Hsame.
Qed.

Lemma download_actions (w : World) (target : string) (kh : option string)
    (action verb : string) :
  needs_transfer w target kh action verb -> action ∈ ["download"; "update"; "fetch"].
Proof.
  intros [(_ & -> & _)|(_ & _ & -> & _)].
  - apply list_elem_of_here.
  - apply list_elem_of_further, list_elem_of_here.
Qed.

(** What [download_action] answers where a transfer is needed. *)
Lemma needs_transfer_action (w : World) (p : string) (kh : option string)
    (action verb : string) :
  needs_transfer w p kh action verb ->
  outcome (download_action p kh) w = Ok (action, verb).
Proof.
  unfold outcome at 1. rewrite download_action_run. simpl.
  intros [(-> & -> & ->)|(-> & Hhash & -> & ->)]; simpl; [done|].
  by rewrite Hhash.
Qed.

(** C7: when [fetch] is given a processor and returns, the processor has been
    called exactly once during the run, also when the action is [fetch];
    it was called with the full target path, with the action that
    [download_action] resolved for the target once [os.makedirs] had seen
    to the storage folder (one of [download], [update], [fetch]) and with
    the Pooch instance, and the value it returned is the value [fetch]
    returns. *)
Theorem fetch_calls_processor_once (w : World) (fname : string)
    (p : Processor) (downloader : option Downloader) (v : Value) :
  outcome (fetch fname (Some p) downloader) w = Ok v ->
  exists known_hash action verb,
    registry (self w) !! fname = Some known_hash /\
    outcome (download_action (fetch_target w fname) known_hash)
      (after (os_makedirs (fetch_root w) true) w) = Ok (action, verb) /\
    action ∈ ["download"; "update"; "fetch"] /\
    filter (fun c => is_processor_call c = true)
      (new_calls w (after (fetch fname (Some p) downloader) w))
    = [CallProcessor (proc_name p) (fetch_target w fname) action (self w) (Ok v)] /\
    exists dk, (proc_call p (fetch_target w fname) action (self w) dk).2 = Ok v.
Proof.
  intros Hok.
  pose proof (fetch_exits w fname (Some p) downloader) as Hexit.
  rewrite Hok in Hexit.
  inversion Hexit as [| | |kh w1 r w2 Hreg Hmk Hex Hhash Hdel
                      | |kh w1 action verb d w3 w4 r w5 Hreg Hmk Hneed Hsel Hstream Hdel];
    subst.
  - exists kh, "fetch", "Fetching". split; [done|].
    split.
    { unfold after at 1. rewrite Hmk. simpl.
      unfold outcome at 1. rewrite download_action_run. simpl.
      rewrite Hex. simpl. by rewrite Hhash. }
    split; [do 2 apply list_elem_of_further; apply list_elem_of_here|].
    apply os_makedirs_ok in Hmk as (Hself & _ & Hcalls & _).
    simpl in Hdel. unfold call_processor in Hdel. rewrite Hself in Hdel.
    destruct (proc_call p (fetch_target w fname) "fetch" (self w) (disk w1))
      as [fs r] eqn:Hp.
    injection Hdel as -> Hw. rewrite <- Hw. split.
    + rewrite (new_calls_app _ _
        [CallProcessor (proc_name p) (fetch_target w fname) "fetch" (self w) (Ok v)]);
        [done|simpl; by rewrite Hcalls].
    + exists (disk w1). by rewrite Hp.
  - exists kh, action, verb. split; [done|].
    split.
    { unfold after at 1. rewrite Hmk. simpl. by apply needs_transfer_action. }
    split; [by eapply download_actions|].
    destruct (fetch_transfer_calls _ _ _ _ _ _ _ _ _ _ _ _ Hmk Hsel Hstream)
      as (Hself & chosen & transferred & Hcalls & Hchosen & Htransferred & _).
    simpl in Hdel. unfold call_processor in Hdel. rewrite Hself in Hdel.
    destruct (proc_call p (fetch_target w fname) action (self w) (disk w4))
      as [fs r] eqn:Hp.
    injection Hdel as -> Hw. rewrite <- Hw. split.
    + rewrite (new_calls_app _ _
        (chosen ++ transferred ++
         [CallProcessor (proc_name p) (fetch_target w fname) action (self w) (Ok v)])).
      * destruct Hchosen as [->|[_ ->]];
          destruct Htransferred as [->|[tmp ->]]; done.
      * simpl. rewrite Hcalls. by rewrite <- !app_assoc.
    + exists (disk w4). by rewrite Hp.
Qed.

Lemma download_action_transfer (p : string) (kh : option string) (w : World)
    (action verb : string) :
  outcome (download_action p kh) w = Ok (action, verb) ->
  in_tuple action ["download"; "update"] = true ->
  needs_transfer w p kh action verb.
Proof.
  unfold outcome at 1. rewrite download_action_run. simpl.
  destruct (exists_on_disk w p) eqn:Hex; simpl.
  - destruct (outcome (hash_matches p kh false) w) as [[|]|e] eqn:Hh; try done.
    + by intros [= <- <-].
    + intros [= <- <-] _. right. done.
  - intros [= <- <-] _. left. done.
Qed.

Lemma needs_transfer_unique (w : World) (p : string) (kh : option string)
    (a v a' v' : string) :
  needs_transfer w p kh a v -> needs_transfer w p kh a' v' -> a = a' /\ v = v'.
Proof.
  intros [(H1 & -> & ->)|(H1 & H2 & -> & ->)] [(H3 & -> & ->)|(H3 & H4 & -> & ->)];
    try done; congruence.
Qed.

Lemma deliver_calls (processor : option Processor) (target action : string)
    (w w' : World) (r : Result Value) :
  deliver processor target action w = (r, w') ->
  exists processed,
    calls w' = calls w ++ processed /\
    forall c, c ∈ processed -> is_processor_call c = true.
Proof.
  intros Hdel. destruct processor as [p|]; simpl in Hdel.
  - unfold call_processor in Hdel. destruct (proc_call p _ _ _ _) as [fs r0].
    injection Hdel as _ <-. eexists. split; [done|].
    by intros c ->%list_elem_of_singleton.
  - injection Hdel as _ <-. exists []. split; [by rewrite app_nil_r|].
    by intros c ?%elem_of_nil.
Qed.

(** The calls of a run of [fetch], in order: at most one of
    [choose_downloader] (and only with no downloader given), at most one of
    the downloader, then the processor's. *)
Lemma fetch_new_calls (w : World) (fname : string)
    (processor : option Processor) (downloader : option Downloader) :
  exists chosen transferred processed,
    new_calls w (after (fetch fname processor downloader) w)
      = chosen ++ transferred ++ processed /\
    (chosen = [] \/
     (downloader = None /\ chosen = [CallChooseDownloader (fetch_url w fname)])) /\
    (transferred = [] \/
     exists d tmp,
       transferred = [CallDownloader (dl_name d) (fetch_url w fname) tmp (Some (self w))
                        (dl_call d (fetch_url w fname) tmp (Some (self w)))] /\
       forall d', downloader = Some d' -> d = d') /\
    (forall c, c ∈ processed -> is_processor_call c = true).
Proof.
  pose proof (fetch_exits w fname processor downloader) as Hexit.
  unfold outcome, after in *.
  destruct (fetch fname processor downloader w) as [r0 w']. simpl in *.
  assert (new_calls w w = []) as Hnil by (unfold new_calls; by rewrite drop_all).
  inversion Hexit as [Hreg|kh e Hreg Hmk|kh w1 e Hreg Hmk Hex Hhash
                      |kh w1 r w2 Hreg Hmk Hex Hhash Hdel
                      |kh w1 action verb d w3 e w4 Hreg Hmk Hneed Hsel Hstream
                      |kh w1 action verb d w3 w4 r w5 Hreg Hmk Hneed Hsel Hstream Hdel];
    subst.
  - exists [], [], []. rewrite Hnil. repeat split; auto. by intros c ?%elem_of_nil.
  - exists [], [], []. rewrite Hnil. repeat split; auto. by intros c ?%elem_of_nil.
  - apply os_makedirs_ok in Hmk as (_ & _ & Hcalls & _).
    exists [], [], []. rewrite (new_calls_app w w' []) by (by rewrite app_nil_r).
    repeat split; auto. by intros c ?%elem_of_nil.
  - apply os_makedirs_ok in Hmk as (_ & _ & Hcalls & _).
    apply deliver_calls in Hdel as (processed & Hc2 & Hp).
    exists [], [], processed.
    rewrite (new_calls_app w w' processed) by congruence.
    repeat split; auto.
  - destruct (fetch_transfer_calls _ _ _ _ _ _ _ _ _ _ _ _ Hmk Hsel Hstream)
      as (_ & chosen & transferred & Hcalls & Hchosen & Htransferred & Hsame).
    exists chosen, transferred, [].
    rewrite (new_calls_app w w' (chosen ++ transferred ++ []))
      by (by rewrite app_nil_r).
    split; [done|]. split; [done|]. split; [|by intros c ?%elem_of_nil].
    destruct Htransferred as [->|[tmp ->]]; [by left|]. right. by exists d, tmp.
  - destruct (fetch_transfer_calls _ _ _ _ _ _ _ _ _ _ _ _ Hmk Hsel Hstream)
      as (_ & chosen & transferred & Hcalls & Hchosen & Htransferred & Hsame).
    apply deliver_calls in Hdel as (processed & Hc5 & Hp).
    exists chosen, transferred, processed.
    rewrite (new_calls_app w w' (chosen ++ transferred ++ processed))
      by (rewrite Hc5, Hcalls; by rewrite <- !app_assoc).
    split; [done|]. split; [done|]. split; [|done].
    destruct Htransferred as [->|[tmp ->]]; [by left|]. right. by exists d, tmp.
Qed.

(** The transfer of a [fetch] that was given a downloader: with the
    directory of the target to be had, that downloader is called on the
    temporary file; without it, [stream_download] fails on the directory
    and nothing is called. *)
Lemma fetch_transfer_given (w w1 w3 w4 : World) (fname msg : string)
    (kh : option string) (d d3 : Downloader) (r : Result unit) :
  os_makedirs (fetch_root w) true w = (Ok tt, w1) ->
  select_downloader (Some d) (fetch_url w fname)
    (set_logs (fun l => l ++ [msg]) w1) = (d3, w3) ->
  stream_download (fetch_url w fname) (fetch_target w fname) kh d3
    (Some (self w)) w3 = (r, w4) ->
  if parent_ready w1 (fetch_target w fname) then
    calls w4 = calls w
      ++ [CallDownloader (dl_name d) (fetch_url w fname)
            (stream_temporary w1 (fetch_target w fname)) (Some (self w))
            (dl_call d (fetch_url w fname)
               (stream_temporary w1 (fetch_target w fname)) (Some (self w)))]
  else
    r = Err (IOFailure (PathStr.parent (fetch_target w fname))) /\ calls w4 = calls w.
Proof.
  intros Hmk Hsel Hstream.
  apply os_makedirs_ok in Hmk as (_ & _ & Hcalls1 & _).
  simpl in Hsel. injection Hsel as <- <-.
  set (w3 := set_logs (fun l => l ++ [msg]) w1) in *.
  assert (disk w3 = disk w1) as Hdisk by done.
  destruct (prepared_disk_same w1 w3 (fetch_target w fname) Hdisk) as (Hready & _ & Htmp).
  pose proof (stream_download_run w3 (fetch_url w fname) (fetch_target w fname) kh d
                (Some (self w))) as Hrun.
  simpl in Hrun. rewrite Hready, Htmp in Hrun.
  destruct (parent_ready w1 (fetch_target w fname)).
  - destruct Hrun as (_ & r' & d1 & Hrun & _).
    rewrite Hstream in Hrun. injection Hrun as _ ->. simpl. by rewrite Hcalls1.
  - rewrite Hstream in Hrun. injection Hrun as -> ->. split; [done|].
    simpl. by rewrite Hcalls1.
Qed.

(** C8, as amended: a downloader given to [fetch] is the one that is
    called, and [choose_downloader] is not consulted.  A call of
    [choose_downloader] during a run means no downloader was given; with a
    downloader given, every downloader call of the run is a call of that
    downloader, on the file's URL and with the Pooch instance.  When the
    resolved action needs a transfer, the given downloader is called, once
    and on the temporary file, and apart from the processor nothing else is
    called: that is so whenever the directory of the target is there or can
    be made, also on a first download into folders that [fetch] and
    [stream_download] make themselves; when that directory cannot be had,
    [fetch] fails with the I/O error on it and no call is made at all. *)
Theorem fetch_explicit_downloader_wins (w : World) (fname : string)
    (processor : option Processor) (downloader : option Downloader) :
  (forall url,
     CallChooseDownloader url ∈ new_calls w (after (fetch fname processor downloader) w) ->
     downloader = None)
  /\
  (forall d name url output_file pup t,
     downloader = Some d ->
     CallDownloader name url output_file pup t
       ∈ new_calls w (after (fetch fname processor downloader) w) ->
     name = dl_name d /\ url = fetch_url w fname /\ pup = Some (self w) /\
     t = dl_call d url output_file pup)
  /\
  (forall d known_hash action verb,
     downloader = Some d ->
     registry (self w) !! fname = Some known_hash ->
     outcome (os_makedirs (fetch_root w) true) w = Ok tt ->
     outcome (download_action (fetch_target w fname) known_hash)
       (after (os_makedirs (fetch_root w) true) w) = Ok (action, verb) ->
     in_tuple action ["download"; "update"] = true ->
     if parent_ready (after (os_makedirs (fetch_root w) true) w) (fetch_target w fname)
     then
       filter (fun c => is_processor_call c = false)
         (new_calls w (after (fetch fname processor downloader) w))
       = [CallDownloader (dl_name d) (fetch_url w fname) (fetch_temporary w fname)
            (Some (self w))
            (dl_call d (fetch_url w fname) (fetch_temporary w fname) (Some (self w)))]
     else
       outcome (fetch fname processor downloader) w
         = Err (IOFailure (PathStr.parent (fetch_target w fname))) /\
       new_calls w (after (fetch fname processor downloader) w) = []).
Proof.
  destruct (fetch_new_calls w fname processor downloader)
    as (chosen & transferred & processed & Hnew & Hchosen & Htransferred & Hprocessed).
  split; [|split].
  - intros url Hin. rewrite Hnew in Hin.
    apply elem_of_app in Hin as [Hin|Hin].
    + destruct Hchosen as [->|[Hnone _]]; [by apply elem_of_nil in Hin|done].
    + apply elem_of_app in Hin as [Hin|Hin].
      * destruct Htransferred as [->|(d & tmp & -> & _)].
        -- by apply elem_of_nil in Hin.
        -- by apply list_elem_of_singleton in Hin.
      * by apply Hprocessed in Hin.
  - intros d name url output_file pup t Hd Hin. rewrite Hnew in Hin.
    apply elem_of_app in Hin as [Hin|Hin].
    + destruct Hchosen as [->|[Hnone _]]; [by apply elem_of_nil in Hin|congruence].
    + apply elem_of_app in Hin as [Hin|Hin].
      * destruct Htransferred as [->|(d0 & tmp & -> & Hsame)].
        -- by apply elem_of_nil in Hin.
        -- apply list_elem_of_singleton in Hin. injection Hin as -> -> -> -> ->.
           by rewrite (Hsame d Hd).
      * by apply Hprocessed in Hin.
  - intros d kh action verb -> Hreg Hstorage Hact Hin.
    clear Hnew Hchosen Htransferred Hprocessed chosen transferred processed.
    pose proof (download_action_transfer _ _ _ _ _ Hact Hin) as Hneed.
    pose proof (fetch_exits w fname processor (Some d)) as Hexit.
    unfold fetch_temporary.
    unfold outcome at 1 in Hstorage. unfold after at 1 in Hneed. unfold after at 1 3 4.
    clear Hact.
    destruct (os_makedirs (fetch_root w) true w) as [r1 w1] eqn:Hmk.
    cbn [fst snd] in Hstorage, Hneed |- *. subst r1.
    unfold outcome, after in Hexit |- *.
    destruct (fetch fname processor (Some d) w) as [r0 w']. cbn [fst snd] in Hexit |- *.
    inversion Hexit as [Hreg'|kh' e Hreg' Hmk'|kh' w1' e Hreg' Hmk' Hex' Hhash'
                      |kh' w1' r w2 Hreg' Hmk' Hex' Hhash' Hdel
                      |kh' w1' action' verb' d0 w3 e w4 Hreg' Hmk' Hneed' Hsel Hstream
                      |kh' w1' action' verb' d0 w3 w4 r w5 Hreg' Hmk' Hneed' Hsel Hstream Hdel];
      subst; try congruence.
    all: rewrite Hmk in Hmk'; injection Hmk' as <-.
    + destruct Hneed as [(? & _)|(_ & ? & _)]; congruence.
    + destruct Hneed as [(? & _)|(_ & ? & _)]; congruence.
    + pose proof (fetch_transfer_given _ _ _ _ _ _ _ _ _ _ Hmk Hsel Hstream) as Hrun.
      destruct (parent_ready w1 (fetch_target w fname)).
      * by rewrite (new_calls_app _ _ _ Hrun).
      * destruct Hrun as [He Hcalls]. injection He as ->. split; [done|].
        apply new_calls_app. by rewrite app_nil_r.
    + pose proof (fetch_transfer_given _ _ _ _ _ _ _ _ _ _ Hmk Hsel Hstream) as Hrun.
      destruct (parent_ready w1 (fetch_target w fname)); [|by destruct Hrun].
      pose proof (deliver_silent processor (fetch_target w fname) action' w4) as [_ Hsilent].
      apply deliver_calls in Hdel as Hdone. destruct Hdone as (processed & Hc5 & _).
      unfold after in Hsilent. rewrite Hdel in Hsilent. cbn [snd] in Hsilent.
      rewrite (new_calls_app _ _ _ Hc5) in Hsilent.
      rewrite Hrun, <- app_assoc in Hc5.
      rewrite (new_calls_app _ _ _ Hc5). rewrite filter_app, Hsilent. done.
Qed.

Lemma prepared_disk_none (w : World) (fname q : string) :
  prepared_disk w fname !! q = None -> disk w !! q = None.
Proof.
  unfold prepared_disk. destruct (exists_on_disk w (PathStr.parent fname)); [done|].
  intros Hq.
  destruct (decide (q ∈ PathStr.parent fname :: PathStr.ancestors (PathStr.parent fname))).
  - by rewrite mkdirs_lookup_in in Hq.
  - by rewrite mkdirs_lookup_notin in Hq.
Qed.

Lemma install_exit_temp_gone (d0 d1 : gmap string Node) (tmp fname : string)
    (kh : option string) (t : Transfer) (r : Result unit) :
  install_exit d0 tmp fname kh t r d1 -> d0 !! tmp = None -> d1 !! tmp = None.
Proof.
  intros Hexit Hfresh. inversion Hexit; subst; try done.
  - by rewrite lookup_insert_ne.
  - by rewrite lookup_insert_ne.
Qed.

(** C6, as amended: what becomes of the temporary file of
    [stream_download], on every run.  When the directory of the target is
    neither there nor to be made, the call fails with the I/O error on that
    directory and the world is as it was: no temporary file was made.
    Otherwise one is made: a new file in the target's parent directory,
    handed to the downloader, the one call of the run.  That file no longer
    exists when the call completes, whatever the exit.  When the downloader
    raises, also after having written, or the strict comparison refuses or
    fails, the call fails with that error and the disk is the one the
    temporary file was made on: the file has been deleted.  Otherwise it is
    moved: to the target path, where its bytes then are, when the target is
    not a directory (and is not the temporary file itself, in which case
    nothing is left); into the target, under its own name, when the target
    is a directory, unless that name is taken there, which is an I/O
    error. *)
Theorem stream_download_temporary_file_gone (w : World) (url fname : string)
    (known_hash : option string) (d : Downloader) (pooch : option Pooch) :
  let d0 := prepared_disk w fname in
  let tmp := stream_temporary w fname in
  let t := dl_call d url tmp pooch in
  let run := stream_download url fname known_hash d pooch in
  if parent_ready w fname then
    d0 !! PathStr.parent fname = Some Dir /\
    disk w !! tmp = None /\
    d0 !! tmp = None /\
    (exists suffix, tmp = temp_prefix (PathStr.parent fname) +:+ suffix) /\
    new_calls w (after run w) = [CallDownloader (dl_name d) url tmp pooch t] /\
    disk (after run w) !! tmp = None /\
    match raised t with
    | Some e => outcome run w = Err e /\ disk (after run w) = d0
    | None =>
        match content_check (written t) known_hash true with
        | Err e => outcome run w = Err e /\ disk (after run w) = d0
        | Ok _ =>
            if bool_decide (d0 !! fname = Some Dir) then
              let inside := PathStr.join fname (PathStr.basename tmp) in
              if bool_decide (inside = tmp \/ is_Some (d0 !! inside)) then
                outcome run w = Err (IOFailure inside) /\ disk (after run w) = d0
              else
                outcome run w = Ok tt /\
                disk (after run w) = <[inside := File (written t)]> d0
            else if bool_decide (fname = tmp) then
              outcome run w = Ok tt /\ disk (after run w) = d0
            else
              outcome run w = Ok tt /\
              disk (after run w) = <[fname := File (written t)]> d0
        end
    end
  else
    run w = (Err (IOFailure (PathStr.parent fname)), w).
Proof.
  intros d0 tmp t run.
  pose proof (stream_download_run w url fname known_hash d pooch) as Hrun.
  cbv zeta in Hrun. fold tmp in Hrun. fold t in Hrun. fold d0 in Hrun.
  destruct (parent_ready w fname); [|exact Hrun].
  destruct Hrun as (Hparent & r & d1 & Hrun & Hinst).
  assert (d0 !! tmp = None) as Hfresh by apply stream_temporary_fresh.
  assert (disk w !! tmp = None) as Hnew by (by apply (prepared_disk_none w fname)).
  assert (exists suffix, tmp = temp_prefix (PathStr.parent fname) +:+ suffix) as Hform
    by (by eexists).
  assert (outcome run w = r) as Hr by (unfold outcome, run; by rewrite Hrun).
  assert (disk (after run w) = d1) as Hd1 by (unfold after, run; by rewrite Hrun).
  assert (new_calls w (after run w) = [CallDownloader (dl_name d) url tmp pooch t])
    as Hcalls.
  { apply new_calls_app. unfold after, run. by rewrite Hrun. }
  rewrite Hr, Hd1. clear Hr Hd1 Hrun. clearbody run t tmp d0.
  do 5 (split; [done|]).
  split; [by eapply install_exit_temp_gone|].
  inversion Hinst as [e Hraised|e Hraised Hcheck|Hraised Hcheck Hdir Hblocked
                      |Hraised Hcheck Hdir Hne Hfree|Hraised Hcheck Heq
                      |Hraised Hcheck Hnotdir Hne]; subst.
  - by rewrite Hraised.
  - by rewrite Hraised, Hcheck.
  - rewrite Hraised, Hcheck. rewrite bool_decide_eq_true_2 by done.
    cbv zeta. by rewrite bool_decide_eq_true_2 by done.
  - rewrite Hraised, Hcheck. rewrite bool_decide_eq_true_2 by done.
    cbv zeta. rewrite bool_decide_eq_false_2; [done|].
    intros [Heq|[n Hn]]; congruence.
  - rewrite Hraised, Hcheck. rewrite bool_decide_eq_false_2 by congruence.
    by rewrite bool_decide_eq_true_2 by done.
  - rewrite Hraised, Hcheck. rewrite bool_decide_eq_false_2 by done.
    by rewrite bool_decide_eq_false_2 by done.
Qed.

Lemma content_check_mismatch (c spec alg expected : string) (h : string -> string) :
  spec <> EmptyString ->
  parse_hash_spec spec = (alg, expected) ->
  digest alg = Some h ->
  String.eqb (lower (h c)) (lower expected) = false ->
  content_check c (Some spec) true = Err (HashMismatch (h c) expected).
Proof.
  intros Hne Hparse Hd Hneq. unfold content_check.
  destruct spec as [|a spec]; [done|]. rewrite Hparse, Hd, Hneq. done.
Qed.

(** A downloader call of a [stream_download] whose bytes the strict
    comparison refuses: the run fails with [HashMismatch], the temporary
    file is gone and the target is as it was. *)
Lemma stream_download_rejects (w w' : World) (url target : string)
    (spec alg expected : string) (h : string -> string)
    (d : Downloader) (pooch : option Pooch) (r : Result unit)
    (name u tmp : string) (pp : option Pooch) (t : Transfer) :
  stream_download url target (Some spec) d pooch w = (r, w') ->
  target <> EmptyString ->
  spec <> EmptyString ->
  parse_hash_spec spec = (alg, expected) ->
  digest alg = Some h ->
  CallDownloader name u tmp pp t ∈ new_calls w w' ->
  raised t = None ->
  String.eqb (lower (h (written t))) (lower expected) = false ->
  r = Err (HashMismatch (h (written t)) expected) /\
  disk w' !! tmp = None /\
  disk w' !! target = disk w !! target /\
  new_calls w w' = [CallDownloader name u tmp pp t].
Proof.
  intros Hrun Htarget Hne Hparse Hd Hin Hraised Hneq.
  pose proof (stream_download_exits w url target (Some spec) d pooch) as Hexit.
  unfold outcome, after in Hexit. rewrite Hrun in Hexit. simpl in Hexit.
  inversion Hexit as [p|d0 tmp0 r0 d1 Hprep Hfresh Hname Hinst]; subst.
  - unfold new_calls in Hin. rewrite drop_all in Hin. by apply elem_of_nil in Hin.
  - rewrite (new_calls_app _ _ [CallDownloader (dl_name d) url
        (temp_name (set_disk (fun _ => d0) w) (PathStr.parent target)) pooch
        (dl_call d url (temp_name (set_disk (fun _ => d0) w) (PathStr.parent target)) pooch)])
      in * by done.
    apply list_elem_of_singleton in Hin. injection Hin as -> -> -> -> Ht.
    rewrite <- Ht in *.
    pose proof (content_check_mismatch (written t) spec alg expected h
                  Hne Hparse Hd Hneq) as Hcheck.
    assert (d0 !! target = disk w !! target) as Hsame.
    { apply (prepared_lookup w target d0 target Hprep).
      intros Hx. by apply (target_not_above target target Htarget Hx). }
    inversion Hinst; subst; try congruence.
    repeat split; try done. simpl. congruence.
Qed.

Lemma select_downloader_calls (downloader : option Downloader) (url : string)
    (w : World) (d : Downloader) (w3 : World) :
  select_downloader downloader url w = (d, w3) ->
  disk w3 = disk w /\
  exists chosen, calls w3 = calls w ++ chosen /\
    forall c, c ∈ chosen -> c = CallChooseDownloader url.
Proof.
  intros H. apply select_downloader_world in H as (_ & Hdisk & _ & Hcalls & _).
  split; [done|]. destruct Hcalls as [->|[_ ->]].
  - exists []. split; [by rewrite app_nil_r|]. by intros c ?%elem_of_nil.
  - eexists. split; [done|]. by intros c ->%list_elem_of_singleton.
Qed.

(** A refused transfer within [fetch]: the common part of both exits. *)
Lemma fetch_transfer_rejected (w w1 w3 w' : World) (fname : string)
    (downloader : option Downloader) (msg : string) (d : Downloader)
    (spec alg expected : string) (h : string -> string) (r : Result unit)
    (name url tmp : string) (pup : option Pooch) (t : Transfer) :
  os_makedirs (fetch_root w) true w = (Ok tt, w1) ->
  select_downloader downloader (fetch_url w fname)
    (set_logs (fun l => l ++ [msg]) w1) = (d, w3) ->
  stream_download (fetch_url w fname) (fetch_target w fname) (Some spec) d
    (Some (self w)) w3 = (r, w') ->
  spec <> EmptyString ->
  parse_hash_spec spec = (alg, expected) ->
  digest alg = Some h ->
  CallDownloader name url tmp pup t ∈ new_calls w w' ->
  raised t = None ->
  String.eqb (lower (h (written t))) (lower expected) = false ->
  r = Err (HashMismatch (h (written t)) expected) /\
  disk w' !! tmp = None /\
  disk w' !! fetch_target w fname = disk w !! fetch_target w fname /\
  (forall c, c ∈ new_calls w w' -> is_processor_call c = false).
Proof.
  intros Hmk Hsel Hstream Hne Hparse Hd Hin Hraised Hneq.
  apply os_makedirs_ok in Hmk as (_ & _ & Hcalls1 & _ & Hdisk1).
  apply select_downloader_calls in Hsel as (Hdisk3 & chosen & Hcalls3 & Hchosen).
  simpl in Hdisk3, Hcalls3. rewrite Hcalls1 in Hcalls3.
  pose proof (stream_download_calls _ _ _ _ _ _ _ _ Hstream) as [_ Hcalls4].
  assert (exists transferred, calls w' = calls w3 ++ transferred) as [transferred Hc4].
  { destruct Hcalls4 as [->|[tmp0 ->]]; [exists []; by rewrite app_nil_r|by eexists]. }
  assert (new_calls w w' = chosen ++ transferred) as Hnew.
  { apply new_calls_app. rewrite Hc4, Hcalls3. by rewrite app_assoc. }
  assert (new_calls w3 w' = transferred) as Hnew3 by (by apply new_calls_app).
  rewrite Hnew in Hin. apply elem_of_app in Hin as [Hin|Hin];
    [by apply Hchosen in Hin|].
  rewrite <- Hnew3 in Hin.
  destruct (stream_download_rejects _ _ _ _ _ _ _ _ _ _ _ _ _ _ _ _
              Hstream (join_not_empty _ _) Hne Hparse Hd Hin Hraised Hneq)
    as (-> & Htmp & Htarget & Hone).
  split; [done|]. split; [done|]. split.
  - rewrite Htarget, Hdisk3. apply Hdisk1. apply not_elem_of_cons. split.
    + intros E. by apply (root_not_target (fetch_root w) fname (fetch_root w));
        [apply list_elem_of_here|].
    + intros E. by apply (root_not_target (fetch_root w) fname (fetch_target w fname));
        [apply list_elem_of_further|].
  - intros c Hc. rewrite Hnew in Hc. apply elem_of_app in Hc as [Hc|Hc].
    + by rewrite (Hchosen c Hc).
    + rewrite <- Hnew3, Hone in Hc. by apply list_elem_of_singleton in Hc as ->.
Qed.

(** C2: when, during a [fetch], the downloader has written to the temporary
    file a content whose digest is not the expected one, [fetch] fails with
    [HashMismatch] carrying both digests, the temporary file no longer
    exists, what was at the target path is still there unchanged (and
    nothing is there if nothing was), and the processor is not called. *)
Theorem fetch_hash_mismatch_keeps_target (w : World) (fname : string)
    (processor : option Processor) (downloader : option Downloader)
    (spec alg expected : string) (h : string -> string)
    (name url tmp : string) (pup : option Pooch) (t : Transfer) :
  registry (self w) !! fname = Some (Some spec) ->
  spec <> EmptyString ->
  parse_hash_spec spec = (alg, expected) ->
  digest alg = Some h ->
  CallDownloader name url tmp pup t
    ∈ new_calls w (after (fetch fname processor downloader) w) ->
  raised t = None ->
  String.eqb (lower (h (written t))) (lower expected) = false ->
  outcome (fetch fname processor downloader) w
    = Err (HashMismatch (h (written t)) expected) /\
  disk (after (fetch fname processor downloader) w) !! tmp = None /\
  disk (after (fetch fname processor downloader) w) !! fetch_target w fname
    = disk w !! fetch_target w fname /\
  (forall c, c ∈ new_calls w (after (fetch fname processor downloader) w) ->
             is_processor_call c = false).
Proof.
  intros Hreg Hne Hparse Hd Hin Hraised Hneq.
  pose proof (fetch_exits w fname processor downloader) as Hexit.
  unfold outcome, after in *.
  destruct (fetch fname processor downloader w) as [r0 w']. simpl in *.
  assert (new_calls w w = []) as Hnil by (unfold new_calls; by rewrite drop_all).
  inversion Hexit as [Hreg'|kh e Hreg' Hmk|kh w1 e Hreg' Hmk Hex Hhash
                      |kh w1 r w2 Hreg' Hmk Hex Hhash Hdel
                      |kh w1 action verb d w3 e w4 Hreg' Hmk Hneed Hsel Hstream
                      |kh w1 action verb d w3 w4 r w5 Hreg' Hmk Hneed Hsel Hstream Hdel];
    subst.
  - rewrite Hnil in Hin. by apply elem_of_nil in Hin.
  - rewrite Hnil in Hin. by apply elem_of_nil in Hin.
  - apply os_makedirs_ok in Hmk as (_ & _ & Hcalls & _).
    rewrite (new_calls_app w w' []) in Hin by (by rewrite app_nil_r).
    by apply elem_of_nil in Hin.
  - apply os_makedirs_ok in Hmk as (_ & _ & Hcalls & _).
    apply deliver_calls in Hdel as (processed & Hc2 & Hp).
    rewrite (new_calls_app w w' processed) in Hin by congruence.
    by apply Hp in Hin.
  - assert (kh = Some spec) as -> by congruence.
    destruct (fetch_transfer_rejected _ _ _ _ _ _ _ _ _ _ _ _ _ _ _ _ _ _
                Hmk Hsel Hstream Hne Hparse Hd Hin Hraised Hneq)
      as (He & Htmp & Htarget & Hcalls).
    injection He as ->. done.
  - assert (kh = Some spec) as -> by congruence.
    exfalso.
    apply deliver_calls in Hdel as (processed & Hc5 & Hp).
    assert (CallDownloader name url tmp pup t ∈ new_calls w w4) as Hin4.
    { pose proof (fetch_transfer_calls _ _ _ _ _ _ _ _ _ _ _ _ Hmk Hsel Hstream)
        as (_ & chosen & transferred & Hcalls & _).
      rewrite (new_calls_app w w' ((chosen ++ transferred) ++ processed)) in Hin
        by (rewrite Hc5, Hcalls; by rewrite <- !app_assoc).
      rewrite (new_calls_app w w4 (chosen ++ transferred)) by done.
      apply elem_of_app in Hin as [Hin|Hin]; [done|]. by apply Hp in Hin. }
    by destruct (fetch_transfer_rejected _ _ _ _ _ _ _ _ _ _ _ _ _ _ _ _ _ _
                   Hmk Hsel Hstream Hne Hparse Hd Hin4 Hraised Hneq) as [? _].
Qed.

(** ** [load_registry] *)







Lemma load_registry_line_run (linenum : nat) (line : string) (w : World) :
  load_registry_line linenum line w =
  match line_entry line with
  | BlankLine => (Ok tt, w)
  | InvalidLine count => (Err (InvalidRegistryEntry (linenum + 1) count line), w)
  | HashEntry name hash => (Ok tt, set_self (set_registry_entry name hash) w)
  | HashUrlEntry name hash url =>
      (Ok tt, set_self (fun p => set_registry_entry name hash (set_url_entry name url p)) w)
  end.
Proof.
  unfold load_registry_line, line_entry.
  destruct (split (strip line)) as [|a [|b [|c [|e rest]]]]; reflexivity.
Qed.

Lemma load_registry_lines_run (lines : list string) (linenum : nat) (w : World) :
  load_registry_lines linenum lines w =
  ((registry_lines linenum lines (self w)).1,
   set_self (fun _ => (registry_lines linenum lines (self w)).2) w).
Proof.
  revert linenum w. induction lines as [|line rest IH]; intros linenum w; simpl.
  - by destruct w.
  - unfold bind. rewrite load_registry_line_run.
    destruct (line_entry line); simpl.
    + apply IH.
    + by destruct w.
    + rewrite IH. by destruct w.
    + rewrite IH. by destruct w.
Qed.



(** ** [is_available] *)

Lemma bindN_run_ok {A B} (m : N A) (k : A -> N B) s s' (a : A) :
  m s = (Ok a, s') -> bindN m k s = k a s'.
Proof. intros H. unfold bindN. by rewrite H. Qed.

Lemma bindN_run_err {A B} (m : N A) (k : A -> N B) s s' (e : Error) :
  m s = (Err e, s') -> bindN m k s = (Err e, s').
Proof. intros H. unfold bindN. by rewrite H. Qed.

Lemma liftN_run {A} (m : M A) (w w' : World) (wire : list WireEvent) (r : Result A) :
  m w = (r, w') -> liftN m (w, wire) = (r, (w', wire)).
Proof. intros H. unfold liftN. simpl. by rewrite H. Qed.

(** [is_available] once the name is known to be registered: the two
    lookups are done and the request remains. *)
Lemma is_available_registered (fname : string) (kh : option string)
    (w : World) (wire : list WireEvent) :
  registry (self w) !! fname = Some kh ->
  is_available fname (w, wire) =
  (let source := fetch_url w fname in
   let parsed_url := parse_url source in
   if String.eqb (protocol parsed_url) "ftp" then
     let directory := os_path_dirname (url_path parsed_url) in
     let host := netloc parsed_url in
     bindN (send (FtpConnect host) (raises_or_unit (ftp_connect_raises host))) (fun _ =>
     finallyN
       (bindN (send (FtpLogin host) (raises_or_unit (ftp_login_raises host))) (fun _ =>
        bindN (send (FtpNlst host directory) (ftp_nlst_result host directory)) (fun listing =>
        retN (bool_decide (url_path parsed_url ∈ listing)))))
       (send (FtpClose host) (Ok tt)))
   else
     bindN (send (HttpHead source) (http_head_status source)) (fun status_code =>
     retN (status_code =? 200)%nat)) (w, wire).
Proof.
  intros Hreg. unfold is_available.
  rewrite (bindN_run_ok _ _ _ _ _
             (liftN_run _ _ _ wire _ (assert_file_in_registry_ok _ _ _ Hreg))).
  by rewrite (bindN_run_ok _ _ _ _ _ (liftN_run _ _ _ wire _ (get_url_ok _ _ _ Hreg))).
Qed.

(** X2: for a name that is not registered [is_available] raises
    [NotInRegistry] before anything is sent: world and wire are as they
    were. *)
Theorem is_available_not_in_registry (fname : string) (w : World)
    (wire : list WireEvent) :
  registry (self w) !! fname = None ->
  is_available fname (w, wire) = (Err (NotInRegistry fname), (w, wire)).
Proof.
  intros Hreg. unfold is_available.
  by rewrite (bindN_run_err _ _ _ _ _
                (liftN_run _ _ _ wire _ (assert_file_in_registry_err _ _ Hreg))).
Qed.

(** X3: over FTP, a connection that was made is closed, whatever happens
    after: when [connect] does not raise, the wire shows the connect, then
    at most a login and a listing of the file's directory, and last the
    close; and an error of the login or of the listing is the error of
    [is_available].  When [connect] raises, nothing else is sent and nothing
    is closed. *)
Theorem is_available_ftp_closes (fname : string) (kh : option string)
    (w : World) (wire : list WireEvent) :
  registry (self w) !! fname = Some kh ->
  protocol (parse_url (fetch_url w fname)) = "ftp" ->
  let host := netloc (parse_url (fetch_url w fname)) in
  let directory := os_path_dirname (url_path (parse_url (fetch_url w fname))) in
  match ftp_connect_raises host with
  | Some e =>
      is_available fname (w, wire) = (Err e, (w, wire ++ [FtpConnect host]))
  | None =>
      exists between,
        (is_available fname (w, wire)).2
          = (w, wire ++ FtpConnect host :: between ++ [FtpClose host]) /\
        (between = [FtpLogin host]
         \/ between = [FtpLogin host; FtpNlst host directory]) /\
        (forall e, ftp_login_raises host = Some e ->
                   (is_available fname (w, wire)).1 = Err e) /\
        (forall e, ftp_login_raises host = None ->
                   ftp_nlst_result host directory = Err e ->
                   (is_available fname (w, wire)).1 = Err e)
  end.
Proof.
  intros Hreg Hftp host directory.
  rewrite (is_available_registered fname kh w wire Hreg). cbv zeta.
  rewrite Hftp. simpl.
  fold host. fold directory.
  unfold bindN at 1, send at 1. simpl.
  destruct (ftp_connect_raises host) as [e|]; simpl; [done|].
  unfold finallyN, bindN at 1, send at 1. simpl.
  destruct (ftp_login_raises host) as [e|] eqn:Hlogin; simpl.
  - exists [FtpLogin host]. unfold send. simpl.
    rewrite <- !app_assoc. simpl.
    split; [done|]. split; [by left|]. split; [by intros ? [= ->]|done].
  - unfold bindN, send, retN. simpl.
    exists [FtpLogin host; FtpNlst host directory].
    destruct (ftp_nlst_result host directory) as [listing|e] eqn:Hls; simpl;
      rewrite <- !app_assoc; simpl.
    + split; [done|]. split; [by right|]. split; done.
    + split; [done|]. split; [by right|]. split; [done|]. by intros ? _ [= ->].
Qed.

(** X4: an answer of [is_available] is the server's: over FTP the file
    is available exactly when its path is in the listing of its directory,
    otherwise exactly when the [HEAD] request of its URL, the only thing
    sent, has status 200.  The world is never changed. *)
Theorem is_available_answer (fname : string) (w : World)
    (wire : list WireEvent) (b : bool) :
  (is_available fname (w, wire)).1 = Ok b ->
  (is_available fname (w, wire)).2.1 = w /\
  if String.eqb (protocol (parse_url (fetch_url w fname))) "ftp" then
    exists listing,
      ftp_nlst_result (netloc (parse_url (fetch_url w fname)))
        (os_path_dirname (url_path (parse_url (fetch_url w fname)))) = Ok listing /\
      (b = true <-> url_path (parse_url (fetch_url w fname)) ∈ listing)
  else
    exists status_code,
      http_head_status (fetch_url w fname) = Ok status_code /\
      (b = true <-> status_code = 200%nat) /\
      (is_available fname (w, wire)).2.2 = wire ++ [HttpHead (fetch_url w fname)].
Proof.
  destruct (registry (self w) !! fname) as [kh|] eqn:Hreg; cycle 1.
  { by rewrite (is_available_not_in_registry fname w wire Hreg). }
  rewrite (is_available_registered fname kh w wire Hreg). cbv zeta.
  destruct (String.eqb (protocol (parse_url (fetch_url w fname))) "ftp").
  - unfold bindN at 1, send at 1. simpl.
    destruct (ftp_connect_raises _) as [e|]; simpl; [done|].
    unfold finallyN, bindN at 1, send at 1. simpl.
    destruct (ftp_login_raises _) as [e|]; simpl; [done|].
    unfold bindN, send, retN. simpl.
    destruct (ftp_nlst_result _ _) as [listing|e]; simpl; [|done].
    intros [= <-]. split; [done|]. exists listing. split; [done|].
    by rewrite bool_decide_eq_true.
  - unfold bindN, send, retN. simpl.
    destruct (http_head_status _) as [status_code|e]; simpl; [|done].
    intros [= <-]. split; [done|]. exists status_code. split; [done|].
    split; [|done]. apply Nat.eqb_eq.
Qed.

(** ** More on [load_registry] *)

Lemma load_registry_run (fname : FileArg) (w : World) :
  load_registry fname w =
  match fname with
  | FileObject lines =>
      ((registry_lines 0 lines (self w)).1,
       set_self (fun _ => (registry_lines 0 lines (self w)).2) w)
  | FilePath p =>
      match file_content w p with
      | Some c =>
          ((registry_lines 0 (file_lines c) (self w)).1,
           set_self (fun _ => (registry_lines 0 (file_lines c) (self w)).2) w)
      | None => (Err (IOFailure p), w)
      end
  end.
Proof.
  unfold load_registry. destruct fname as [p|lines].
  - unfold bind at 1, bind at 1, read_file.
    destruct (file_content w p) as [c|]; [|done].
    simpl. apply load_registry_lines_run.
  - rewrite (bind_run_ok (ret lines) _ w w lines) by done.
    apply load_registry_lines_run.
Qed.

(** Reading lines keeps the folder and the base URL and every key. *)
Lemma registry_lines_keeps (lines : list string) (n : nat) (p : Pooch) :
  path (registry_lines n lines p).2 = path p /\
  base_url (registry_lines n lines p).2 = base_url p /\
  (forall k, is_Some (registry p !! k) ->
             is_Some (registry (registry_lines n lines p).2 !! k)) /\
  (forall k, is_Some (urls p !! k) ->
             is_Some (urls (registry_lines n lines p).2 !! k)).
Proof.
  revert n p. induction lines as [|line rest IH]; intros n p; simpl; [done|].
  destruct (line_entry line) as [|count|name hash|name hash url]; simpl;
    [apply IH|done| |].
  - destruct (IH (S n) (set_registry_entry name hash p)) as (Hp & Hb & Hr & Hu).
    simpl in Hp, Hb, Hu.
    split; [done|]. split; [done|]. split; [|done].
    intros k Hk. apply Hr. simpl.
    destruct (decide (name = k)) as [->|Hne];
      [rewrite lookup_insert_eq; eauto|by rewrite lookup_insert_ne].
  - destruct (IH (S n) (set_registry_entry name hash (set_url_entry name url p)))
      as (Hp & Hb & Hr & Hu).
    simpl in Hp, Hb.
    split; [done|]. split; [done|]. split.
    + intros k Hk. apply Hr. simpl.
      destruct (decide (name = k)) as [->|Hne];
        [rewrite lookup_insert_eq; eauto|by rewrite lookup_insert_ne].
    + intros k Hk. apply Hu. simpl.
      destruct (decide (name = k)) as [->|Hne];
        [rewrite lookup_insert_eq; eauto|by rewrite lookup_insert_ne].
Qed.

(** X11: [load_registry] only adds: whether it is given a path or an open
    file, whether it returns or raises, it leaves the disk, the log, the
    folder and the base URL as they were, and every name that was in the
    registry or had a URL of its own still is and still has. *)
Theorem load_registry_only_adds (fname : FileArg) (w : World) :
  disk (after (load_registry fname) w) = disk w /\
  logs (after (load_registry fname) w) = logs w /\
  calls (after (load_registry fname) w) = calls w /\
  path (self (after (load_registry fname) w)) = path (self w) /\
  base_url (self (after (load_registry fname) w)) = base_url (self w) /\
  (forall k, is_Some (registry (self w) !! k) ->
             is_Some (registry (self (after (load_registry fname) w)) !! k)) /\
  (forall k, is_Some (urls (self w) !! k) ->
             is_Some (urls (self (after (load_registry fname) w)) !! k)).
Proof.
  unfold after. rewrite load_registry_run.
  destruct fname as [p|lines]; [destruct (file_content w p) as [c|]|]; simpl;
    try done.
  - destruct (registry_lines_keeps (file_lines c) 0 (self w)) as (? & ? & ? & ?).
    done.
  - destruct (registry_lines_keeps lines 0 (self w)) as (? & ? & ? & ?).
    done.
Qed.

(** What a file does to a Pooch is what it does to an empty one, laid over
    what was there. *)
Lemma registry_lines_union (lines : list string) (n : nat) (p : Pooch) :
  (registry_lines n lines p).1 = (registry_lines n lines (unregistered p)).1 /\
  registry (registry_lines n lines p).2
    = registry (registry_lines n lines (unregistered p)).2 ∪ registry p /\
  urls (registry_lines n lines p).2
    = urls (registry_lines n lines (unregistered p)).2 ∪ urls p.
Proof.
  assert (forall lines n p q,
            path q = path p -> base_url q = base_url p ->
            (registry_lines n lines p).1 = (registry_lines n lines q).1 /\
            forall r u, registry p = registry q ∪ r -> urls p = urls q ∪ u ->
              registry (registry_lines n lines p).2
                = registry (registry_lines n lines q).2 ∪ r /\
              urls (registry_lines n lines p).2
                = urls (registry_lines n lines q).2 ∪ u) as Hgen.
  { clear. induction lines as [|line rest IH]; intros n p q Hpath Hbase; simpl.
    - split; [done|]. intros r u Hr Hu. done.
    - destruct (line_entry line) as [|count|name hash|name hash url]; simpl.
      + by apply IH.
      + split; [done|]. intros r u Hr Hu. done.
      + destruct (IH (S n) (set_registry_entry name hash p)
                    (set_registry_entry name hash q)) as [Hout Hmaps]; [done|done|].
        split; [done|]. intros r u Hr Hu. apply Hmaps; simpl; [|done].
        rewrite Hr. by rewrite insert_union_l.
      + destruct (IH (S n) (set_registry_entry name hash (set_url_entry name url p))
                    (set_registry_entry name hash (set_url_entry name url q)))
          as [Hout Hmaps]; [done|done|].
        split; [done|]. intros r u Hr Hu. apply Hmaps; simpl.
        * rewrite Hr. by rewrite insert_union_l.
        * rewrite Hu. by rewrite insert_union_l. }
  destruct (Hgen lines n p (unregistered p)) as [Hout Hmaps]; [done|done|].
  split; [done|].
  apply Hmaps; simpl; by rewrite (left_id_L ∅ (∪)).
Qed.

(** X12: what a registry file does to a Pooch does not depend on what
    the Pooch holds: it raises for the one exactly when it raises for a Pooch
    with nothing registered, and the registry and the URLs it leaves are
    those it leaves in that Pooch, laid over the earlier ones, which stay
    wherever the file has no entry. *)
Theorem load_registry_lays_over (fname : FileArg) (w : World) :
  outcome (load_registry fname) w
    = outcome (load_registry fname) (set_self unregistered w) /\
  registry (self (after (load_registry fname) w))
    = registry (self (after (load_registry fname) (set_self unregistered w)))
      ∪ registry (self w) /\
  urls (self (after (load_registry fname) w))
    = urls (self (after (load_registry fname) (set_self unregistered w)))
      ∪ urls (self w).
Proof.
  unfold outcome, after. rewrite !load_registry_run.
  assert (forall p, file_content (set_self unregistered w) p = file_content w p)
    as Hsame by done.
  destruct fname as [p|lines].
  - rewrite Hsame. destruct (file_content w p) as [c|]; simpl.
    + apply registry_lines_union.
    + split; [done|]. by rewrite !(left_id_L ∅ (∪)).
  - simpl. apply registry_lines_union.
Qed.

Lemma pooch_eq (p q : Pooch) :
  path p = path q -> base_url p = base_url q ->
  registry p = registry q -> urls p = urls q -> p = q.
Proof. destruct p, q. simpl. by intros -> -> -> ->. Qed.

Lemma registry_lines_twice (lines : list string) (n : nat) (p : Pooch) :
  registry_lines n lines (registry_lines n lines p).2 = registry_lines n lines p.
Proof.
  set (q := (registry_lines n lines p).2).
  destruct (registry_lines_keeps lines n p) as (Hpath & Hbase & _ & _).
  destruct (registry_lines_union lines n p) as (Hout & Hreg & Hurl).
  destruct (registry_lines_union lines n q) as (Hout' & Hreg' & Hurl').
  assert (unregistered q = unregistered p) as Hblank.
  { unfold unregistered, q. by rewrite Hpath, Hbase. }
  rewrite Hblank in Hout', Hreg', Hurl'.
  destruct (registry_lines_keeps lines n q) as (Hpath' & Hbase' & _ & _).
  rewrite (surjective_pairing (registry_lines n lines q)).
  rewrite (surjective_pairing (registry_lines n lines p)).
  f_equal; [congruence|].
  apply pooch_eq.
  - by rewrite Hpath'.
  - by rewrite Hbase'.
  - rewrite Hreg'. unfold q. rewrite Hreg.
    by rewrite (assoc_L (∪)), (idemp_L (∪)).
  - rewrite Hurl'. unfold q. rewrite Hurl.
    by rewrite (assoc_L (∪)), (idemp_L (∪)).
Qed.

(** X13: loading the same registry file a second time changes nothing:
    the second call returns or raises as the first did and leaves the world
    the first left. *)
Theorem load_registry_twice (p : string) (w : World) :
  load_registry (FilePath p) (after (load_registry (FilePath p)) w)
  = (outcome (load_registry (FilePath p)) w,
     after (load_registry (FilePath p)) w).
Proof.
  unfold outcome, after. rewrite !load_registry_run.
  destruct (file_content w p) as [c|] eqn:Hc; simpl.
  - assert (file_content
              (set_self (fun _ => (registry_lines 0 (file_lines c) (self w)).2) w) p
            = Some c) as -> by done.
    simpl. rewrite registry_lines_twice. by destruct w.
  - by rewrite Hc.
Qed.

Lemma registry_lines_app (before rest : list string) (n : nat) (p : Pooch) :
  (registry_lines n before p).1 = Ok tt ->
  registry_lines n (before ++ rest) p
  = registry_lines (n + length before) rest (registry_lines n before p).2.
Proof.
  revert n p. induction before as [|line before IH]; intros n p Hok; simpl.
  - by rewrite Nat.add_0_r.
  - simpl in Hok.
    destruct (line_entry line); try done; rewrite IH by done;
      by replace (S n + length before)%nat with (n + S (length before))%nat by lia.
Qed.

(** X1: the URL of a file after a registry file has been read.  When the
    last line of the file has three fields, [get_url] of its name gives the
    third; when it has two, [get_url] gives what it gave before that line:
    a URL the name had from an earlier line or from the caller stays, it is
    not put back to the base URL.  In both cases the second field is the
    registered hash. *)
Theorem get_url_after_load_registry (lines : list string) (line : string)
    (w : World) :
  outcome (load_registry (FileObject lines)) w = Ok tt ->
  match line_entry line with
  | HashUrlEntry name hash url =>
      outcome (get_url name) (after (load_registry (FileObject (lines ++ [line]))) w)
        = Ok url /\
      registry (self (after (load_registry (FileObject (lines ++ [line]))) w)) !! name
        = Some (Some hash)
  | HashEntry name hash =>
      outcome (get_url name) (after (load_registry (FileObject (lines ++ [line]))) w)
        = Ok (fetch_url (after (load_registry (FileObject lines)) w) name) /\
      registry (self (after (load_registry (FileObject (lines ++ [line]))) w)) !! name
        = Some (Some hash)
  | _ => True
  end.
Proof.
  unfold outcome, after. rewrite !load_registry_run. simpl. intros Hok.
  rewrite (registry_lines_app lines [line] 0 (self w) Hok). simpl.
  destruct (line_entry line) as [|count|name hash|name hash url]; try done; simpl.
  - split; [|apply lookup_insert_eq].
    erewrite get_url_ok; [done|]. simpl. apply lookup_insert_eq.
  - split; [|apply lookup_insert_eq].
    erewrite get_url_ok; [|simpl; apply lookup_insert_eq].
    simpl. unfold fetch_url. simpl. by rewrite lookup_insert_eq.
Qed.

(** ** More on [stream_download] and [fetch] *)

(** With the target's directory in place, [stream_download] is the
    transfer: one downloader call on a new temporary file, and one of the
    exits of the installation. *)
Lemma stream_download_ready (w : World) (url target : string)
    (kh : option string) (d : Downloader) (pooch : option Pooch) :
  disk w !! PathStr.parent target = Some Dir ->
  let tmp := temp_name w (PathStr.parent target) in
  let t := dl_call d url tmp pooch in
  exists r d1,
    stream_download url target kh d pooch w
    = (r, mkWorld (self w) d1 (logs w ++ logged t)
            (calls w ++ [CallDownloader (dl_name d) url tmp pooch t]))
    /\ install_exit (disk w) tmp target kh t r d1.
Proof.
  intros Hd tmp t. unfold stream_download.
  rewrite <- bind_assoc.
  assert ((e <~ path_exists (PathStr.parent target) ;
           if negb e then os_makedirs (PathStr.parent target) false else ret tt) w
          = (Ok tt, w)) as Hprep.
  { unfold bind, path_exists, gets, exists_on_disk. rewrite Hd.
    by rewrite bool_decide_eq_true_2 by eauto. }
  rewrite (bind_run_ok _ _ _ _ _ Hprep).
  apply (transfer_exits (PathStr.parent target) url target kh d pooch w Hd).
Qed.

(** The downloader call of a [stream_download], seen from its record. *)
Lemma stream_download_called (w w' : World) (url target : string)
    (kh : option string) (d : Downloader) (pooch : option Pooch) (r : Result unit)
    (name u tmp : string) (pp : option Pooch) (t : Transfer) :
  stream_download url target kh d pooch w = (r, w') ->
  CallDownloader name u tmp pp t ∈ new_calls w w' ->
  exists d0,
    prepared w target d0 /\ d0 !! tmp = None /\
    t = dl_call d url tmp pooch /\
    install_exit d0 tmp target kh t r (disk w') /\
    new_calls w w' = [CallDownloader name u tmp pp t].
Proof.
  intros Hrun Hin.
  pose proof (stream_download_exits w url target kh d pooch) as Hexit.
  unfold outcome, after in Hexit. rewrite Hrun in Hexit. simpl in Hexit.
  inversion Hexit as [p|d0 tmp0 r0 d1 Hprep Hfresh Hname Hinst]; subst.
  - unfold new_calls in Hin. rewrite drop_all in Hin. by apply elem_of_nil in Hin.
  - rewrite (new_calls_app _ _ [CallDownloader (dl_name d) url
        (temp_name (set_disk (fun _ => d0) w) (PathStr.parent target)) pooch
        (dl_call d url (temp_name (set_disk (fun _ => d0) w) (PathStr.parent target)) pooch)])
      in * by done.
    apply list_elem_of_singleton in Hin. injection Hin as -> -> -> -> Ht.
    exists d0. rewrite <- Ht in *.
    split; [done|]. split; [done|]. split; [done|]. split; done.
Qed.

(** An installation that fails leaves the disk it started from. *)
Lemma install_exit_err (d0 d1 : gmap string Node) (tmp fname : string)
    (kh : option string) (t : Transfer) (e : Error) :
  install_exit d0 tmp fname kh t (Err e) d1 -> d1 = d0.
Proof. intros H. by inversion H. Qed.

Lemma install_exit_raised (d0 d1 : gmap string Node) (tmp fname : string)
    (kh : option string) (t : Transfer) (r : Result unit) (e : Error) :
  install_exit d0 tmp fname kh t r d1 -> raised t = Some e -> r = Err e.
Proof. intros H Hr. inversion H; subst; congruence. Qed.

(** X5: a failure of the transport is the failure of [fetch].  When a
    downloader called during the run raises, also after having written
    bytes, [fetch] raises the same error, the temporary file is gone, what
    was at the target path is untouched, and the processor is not called. *)
Theorem fetch_transport_failure_keeps_target (w : World) (fname : string)
    (processor : option Processor) (downloader : option Downloader)
    (name url tmp : string) (pup : option Pooch) (t : Transfer) (e : Error) :
  CallDownloader name url tmp pup t
    ∈ new_calls w (after (fetch fname processor downloader) w) ->
  raised t = Some e ->
  outcome (fetch fname processor downloader) w = Err e /\
  disk (after (fetch fname processor downloader) w) !! tmp = None /\
  disk (after (fetch fname processor downloader) w) !! fetch_target w fname
    = disk w !! fetch_target w fname /\
  (forall c, c ∈ new_calls w (after (fetch fname processor downloader) w) ->
             is_processor_call c = false).
Proof.
  intros Hin Hraised.
  pose proof (fetch_exits w fname processor downloader) as Hexit.
  unfold outcome, after in *.
  destruct (fetch fname processor downloader w) as [r0 w']. simpl in *.
  assert (new_calls w w = []) as Hnil by (unfold new_calls; by rewrite drop_all).
  assert (forall kh w1 w3 w4 msg d r,
    os_makedirs (fetch_root w) true w = (Ok tt, w1) ->
    select_downloader downloader (fetch_url w fname)
      (set_logs (fun l => l ++ [msg]) w1) = (d, w3) ->
    stream_download (fetch_url w fname) (fetch_target w fname) kh d
      (Some (self w)) w3 = (r, w4) ->
    CallDownloader name url tmp pup t ∈ new_calls w w4 ->
    r = Err e /\ disk w4 !! tmp = None /\
    disk w4 !! fetch_target w fname = disk w !! fetch_target w fname /\
    (forall c, c ∈ new_calls w w4 -> is_processor_call c = false)) as Hcore.
  { intros kh w1 w3 w4 msg d r Hmk Hsel Hstream Hin4.
    apply os_makedirs_ok in Hmk as (_ & _ & Hcalls1 & _ & Hdisk1).
    apply select_downloader_calls in Hsel as (Hdisk3 & chosen & Hcalls3 & Hchosen).
    simpl in Hdisk3, Hcalls3. rewrite Hcalls1 in Hcalls3.
    pose proof (stream_download_calls _ _ _ _ _ _ _ _ Hstream) as [_ Hcalls4].
    assert (exists transferred, calls w4 = calls w3 ++ transferred) as [transferred Hc4].
    { destruct Hcalls4 as [->|[tmp0 ->]]; [exists []; by rewrite app_nil_r|by eexists]. }
    assert (new_calls w w4 = chosen ++ transferred) as Hnew.
    { apply new_calls_app. rewrite Hc4, Hcalls3. by rewrite app_assoc. }
    assert (new_calls w3 w4 = transferred) as Hnew3 by (by apply new_calls_app).
    rewrite Hnew in Hin4. apply elem_of_app in Hin4 as [Hin4|Hin4];
      [by apply Hchosen in Hin4|].
    rewrite <- Hnew3 in Hin4.
    destruct (stream_download_called _ _ _ _ _ _ _ _ _ _ _ _ _ Hstream Hin4)
      as (d0 & Hprep & Hfresh & Ht & Hinst & Hone).
    pose proof (install_exit_raised _ _ _ _ _ _ _ _ Hinst Hraised) as ->.
    apply install_exit_err in Hinst as Hd1.
    split; [done|]. split; [by rewrite Hd1|]. split.
    - rewrite Hd1.
      rewrite (proj1 (prepared_lookup w3 _ d0 (fetch_target w fname) Hprep)).
      + rewrite Hdisk3. apply Hdisk1. apply not_elem_of_cons. split.
        * intros E. by apply (root_not_target (fetch_root w) fname (fetch_root w));
            [apply list_elem_of_here|].
        * intros E. by apply (root_not_target (fetch_root w) fname (fetch_target w fname));
            [apply list_elem_of_further|].
      + intros Hx. by apply (target_not_above _ _ (join_not_empty _ _) Hx).
    - intros c Hc. rewrite Hnew in Hc. apply elem_of_app in Hc as [Hc|Hc].
      + by rewrite (Hchosen c Hc).
      + rewrite <- Hnew3, Hone in Hc. by apply list_elem_of_singleton in Hc as ->. }
  inversion Hexit as [Hreg'|kh e' Hreg' Hmk|kh w1 e' Hreg' Hmk Hex Hhash
                      |kh w1 r w2 Hreg' Hmk Hex Hhash Hdel
                      |kh w1 action verb d w3 e' w4 Hreg' Hmk Hneed Hsel Hstream
                      |kh w1 action verb d w3 w4 r w5 Hreg' Hmk Hneed Hsel Hstream Hdel];
    subst.
  - rewrite Hnil in Hin. by apply elem_of_nil in Hin.
  - rewrite Hnil in Hin. by apply elem_of_nil in Hin.
  - apply os_makedirs_ok in Hmk as (_ & _ & Hcalls & _).
    rewrite (new_calls_app w w' []) in Hin by (by rewrite app_nil_r).
    by apply elem_of_nil in Hin.
  - apply os_makedirs_ok in Hmk as (_ & _ & Hcalls & _).
    apply deliver_calls in Hdel as (processed & Hc2 & Hp).
    rewrite (new_calls_app w w' processed) in Hin by congruence.
    by apply Hp in Hin.
  - destruct (Hcore _ _ _ _ _ _ _ Hmk Hsel Hstream Hin) as (He & ? & ? & ?).
    injection He as ->. done.
  - exfalso.
    apply deliver_calls in Hdel as (processed & Hc5 & Hp).
    assert (CallDownloader name url tmp pup t ∈ new_calls w w4) as Hin4.
    { pose proof (fetch_transfer_calls _ _ _ _ _ _ _ _ _ _ _ _ Hmk Hsel Hstream)
        as (_ & chosen & transferred & Hcalls & _).
      rewrite (new_calls_app w w' ((chosen ++ transferred) ++ processed)) in Hin
        by (rewrite Hc5, Hcalls; by rewrite <- !app_assoc).
      rewrite (new_calls_app w w4 (chosen ++ transferred)) by done.
      apply elem_of_app in Hin as [Hin|Hin]; [done|]. by apply Hp in Hin. }
    by destruct (Hcore _ _ _ _ _ _ _ Hmk Hsel Hstream Hin4) as [? _].
Qed.

Lemma temp_name_disk (w w' : World) (dir : string) :
  disk w' = disk w -> temp_name w' dir = temp_name w dir.
Proof. intros H. unfold temp_name, temp_suffixes. by rewrite H. Qed.

Lemma needs_transfer_target (w : World) (target : string) (kh : option string)
    (action verb : string) :
  needs_transfer w target kh action verb ->
  disk w !! target <> Some Dir /\
  (disk w !! target = None \/ exists c, disk w !! target = Some (File c)).
Proof.
  intros [(Hex & _)|(_ & Hhash & _)].
  - unfold exists_on_disk in Hex. apply bool_decide_eq_false in Hex.
    assert (disk w !! target = None) as Hnone.
    { destruct (disk w !! target) eqn:E; [|done]. exfalso. apply Hex. by eexists. }
    rewrite Hnone. split; [done|by left].
  - apply hash_matches_false_is_file in Hhash as [c Hc]. rewrite Hc.
    split; [done|]. right. by exists c.
Qed.

(** X6: a download or an update that goes well.  With the name
    registered, the storage root and the target's directory in place, the
    action resolved to [download] or [update], and a downloader that writes,
    without raising, bytes the strict comparison accepts, [fetch] returns
    the target path; the disk is the one it found with those bytes at the
    target and nothing else changed; the log has one more line of
    [fetch], with the verb of the action, followed by the downloader's own
    lines.  The name is assumed not to have the form of a temporary
    file's. *)
Theorem fetch_installs (w : World) (fname : string)
    (downloader : option Downloader) (known_hash : option string)
    (action verb : string) :
  registry (self w) !! fname = Some known_hash ->
  disk w !! fetch_root w = Some Dir ->
  disk w !! PathStr.parent (fetch_target w fname) = Some Dir ->
  outcome (download_action (fetch_target w fname) known_hash) w = Ok (action, verb) ->
  in_tuple action ["download"; "update"] = true ->
  PathStr.strip_prefix (temp_prefix (PathStr.parent (fetch_target w fname)))
    (fetch_target w fname) = None ->
  let d := (select_downloader downloader (fetch_url w fname) w).1 in
  let tmp := temp_name w (PathStr.parent (fetch_target w fname)) in
  let t := dl_call d (fetch_url w fname) tmp (Some (self w)) in
  raised t = None ->
  content_check (written t) known_hash true = Ok true ->
  outcome (fetch fname None downloader) w = Ok (VStr (fetch_target w fname)) /\
  disk (after (fetch fname None downloader) w)
    = <[fetch_target w fname := File (written t)]> (disk w) /\
  logs (after (fetch fname None downloader) w)
    = logs w ++ [fetch_message verb fname (fetch_url w fname) (fetch_root w)]
        ++ logged t /\
  self (after (fetch fname None downloader) w) = self w.
Proof.
  intros Hreg Hroot Hparent Hact Hin Hname d tmp t Hraised Hcheck.
  pose proof (download_action_transfer _ _ _ _ _ Hact Hin) as Hneed.
  pose proof (os_makedirs_existing _ _ Hroot) as Hmk.
  pose proof (fetch_exits w fname None downloader) as Hexit.
  unfold outcome, after in *.
  destruct (fetch fname None downloader w) as [r0 w']. simpl in *.
  assert (forall msg d' w3 r w4,
    select_downloader downloader (fetch_url w fname)
      (set_logs (fun l => l ++ [msg]) w) = (d', w3) ->
    stream_download (fetch_url w fname) (fetch_target w fname) known_hash d'
      (Some (self w)) w3 = (r, w4) ->
    r = Ok tt /\
    w4 = mkWorld (self w) (<[fetch_target w fname := File (written t)]> (disk w))
           ((logs w ++ [msg]) ++ logged t) (calls w4)) as Hcore.
  { intros msg d' w3 r w4 Hsel Hstream.
    assert (d' = d /\ self w3 = self w /\ disk w3 = disk w
            /\ logs w3 = logs w ++ [msg]) as (-> & Hself3 & Hdisk3 & Hlogs3).
    { unfold d. destruct downloader; simpl in *; by injection Hsel as <- <-. }
    assert (disk w3 !! PathStr.parent (fetch_target w fname) = Some Dir) as Hparent3
      by (by rewrite Hdisk3).
    destruct (stream_download_ready w3 (fetch_url w fname) (fetch_target w fname)
                known_hash d (Some (self w)) Hparent3) as (r' & d1 & Hrun & Hinst).
    rewrite (temp_name_disk w w3 _ Hdisk3) in Hrun, Hinst.
    fold tmp in Hrun, Hinst. fold t in Hrun, Hinst.
    rewrite Hstream in Hrun. injection Hrun as -> ->.
    destruct (needs_transfer_target _ _ _ _ _ Hneed) as [Hnotdir _].
    inversion Hinst; subst; try congruence.
    - exfalso. by apply (temp_name_not_target w (fetch_target w fname) Hname).
    - split; [done|]. simpl. by rewrite Hself3, Hdisk3, Hlogs3. }
  inversion Hexit as [Hreg'|kh e' Hreg' Hmk'|kh w1 e' Hreg' Hmk' Hex Hhash
                      |kh w1 r w2 Hreg' Hmk' Hex Hhash Hdel
                      |kh w1 action' verb' d' w3 e' w4 Hreg' Hmk' Hneed' Hsel Hstream
                      |kh w1 action' verb' d' w3 w4 r w5 Hreg' Hmk' Hneed' Hsel Hstream Hdel];
    subst; try congruence.
  all: rewrite Hmk in Hmk'; injection Hmk' as <-.
  all: assert (kh = known_hash) as -> by congruence.
  - destruct Hneed as [(? & _)|(_ & ? & _)]; congruence.
  - destruct Hneed as [(? & _)|(_ & ? & _)]; congruence.
  - by destruct (Hcore _ _ _ _ _ Hsel Hstream) as [? _].
  - destruct (needs_transfer_unique _ _ _ _ _ _ _ Hneed Hneed') as [<- <-].
    destruct (Hcore _ _ _ _ _ Hsel Hstream) as [_ Hw4].
    simpl in Hdel. injection Hdel as <- <-. rewrite Hw4. simpl.
    by rewrite <- app_assoc.
Qed.

Lemma hash_matches_unsupported (f : string) (spec alg expected : string)
    (s : bool) (w : World) :
  spec <> EmptyString ->
  parse_hash_spec spec = (alg, expected) ->
  digest alg = None ->
  hash_matches f (Some spec) s w = (Err (UnsupportedAlgorithm alg), w).
Proof.
  intros Hne Hparse Hd. unfold hash_matches.
  destruct spec as [|a spec]; [done|]. rewrite Hparse.
  unfold bind, file_hash. by rewrite Hd.
Qed.

(** X7: a registered hash that names an algorithm the digest library
    does not know makes [fetch] of a file that is on disk raise
    [UnsupportedAlgorithm] at once: nothing is logged, no downloader and no
    processor is called, the world is as it was. *)
Theorem fetch_unsupported_algorithm (w : World) (fname : string)
    (processor : option Processor) (downloader : option Downloader)
    (spec alg expected : string) :
  registry (self w) !! fname = Some (Some spec) ->
  spec <> EmptyString ->
  parse_hash_spec spec = (alg, expected) ->
  digest alg = None ->
  disk w !! fetch_root w = Some Dir ->
  exists_on_disk w (fetch_target w fname) = true ->
  fetch fname processor downloader w = (Err (UnsupportedAlgorithm alg), w).
Proof.
  intros Hreg Hne Hparse Hd Hroot Hex.
  pose proof (hash_matches_unsupported (fetch_target w fname) spec alg expected
                false w Hne Hparse Hd) as Hhash.
  pose proof (os_makedirs_existing _ _ Hroot) as Hmk.
  pose proof (fetch_exits w fname processor downloader) as Hexit.
  unfold outcome, after in Hexit.
  destruct (fetch fname processor downloader w) as [r0 w']. simpl in Hexit.
  inversion Hexit as [Hreg'|kh e' Hreg' Hmk'|kh w1 e' Hreg' Hmk' Hex' Hhash'
                      |kh w1 r w2 Hreg' Hmk' Hex' Hhash' Hdel
                      |kh w1 action' verb' d' w3 e' w4 Hreg' Hmk' Hneed' Hsel Hstream
                      |kh w1 action' verb' d' w3 w4 r w5 Hreg' Hmk' Hneed' Hsel Hstream Hdel];
    subst; try congruence.
  all: rewrite Hmk in Hmk'; injection Hmk' as <-.
  all: assert (kh = Some spec) as -> by congruence.
  - unfold outcome in Hhash'. rewrite Hhash in Hhash'. simpl in Hhash'. congruence.
  - unfold outcome in Hhash'. rewrite Hhash in Hhash'. done.
  - destruct Hneed' as [(? & _)|(_ & Hh & _)]; [congruence|].
    unfold outcome in Hh. rewrite Hhash in Hh. done.
  - destruct Hneed' as [(? & _)|(_ & Hh & _)]; [congruence|].
    unfold outcome in Hh. rewrite Hhash in Hh. done.
Qed.

(** X8: a target in a directory that does not exist yet
    ([subdir/data.txt]).  For a target path that is not empty and not a
    directory, when nothing is at the parent directory and no regular file
    is in the way of it, [stream_download] makes the directory and the ones
    above it that are missing, and a transfer that raises nothing and that
    the strict comparison accepts ends with the bytes at the target, unless
    the temporary file was given the very name of the target. *)
Theorem stream_download_makes_parent (w : World) (url target : string)
    (known_hash : option string) (d : Downloader) (pooch : option Pooch) :
  target <> EmptyString ->
  disk w !! PathStr.parent target = None ->
  existsb (is_file w) (PathStr.parent target :: PathStr.ancestors (PathStr.parent target))
    = false ->
  disk w !! target <> Some Dir ->
  let made := mkdirs (PathStr.parent target :: PathStr.ancestors (PathStr.parent target))
                (disk w) in
  let tmp := temp_name (set_disk (fun _ => made) w) (PathStr.parent target) in
  let t := dl_call d url tmp pooch in
  target <> tmp ->
  raised t = None ->
  content_check (written t) known_hash true = Ok true ->
  outcome (stream_download url target known_hash d pooch) w = Ok tt /\
  disk (after (stream_download url target known_hash d pooch) w)
    = <[target := File (written t)]> made /\
  (forall q, q ∈ PathStr.parent target :: PathStr.ancestors (PathStr.parent target) ->
     disk (after (stream_download url target known_hash d pooch) w) !! q = Some Dir).
Proof.
  intros Hne Hparent Hfiles Hnotdir made tmp t Hdiff Hraised Hcheck.
  assert (forall q, q ∈ PathStr.parent target :: PathStr.ancestors (PathStr.parent target) ->
            q <> target) as Habove.
  { intros q Hq. by apply (target_not_above target q Hne Hq). }
  unfold outcome, after, stream_download.
  rewrite <- bind_assoc.
  assert ((e <~ path_exists (PathStr.parent target) ;
           if negb e then os_makedirs (PathStr.parent target) false else ret tt) w
          = (Ok tt, set_disk (fun _ => made) w)) as Hprep.
  { unfold bind, path_exists, gets, exists_on_disk. rewrite Hparent.
    rewrite bool_decide_eq_false_2 by (by intros [? ?]). simpl.
    unfold os_makedirs, is_dir. rewrite Hparent.
    rewrite bool_decide_eq_false_2 by done. by rewrite Hfiles. }
  rewrite (bind_run_ok _ _ _ _ _ Hprep).
  set (w1 := set_disk (fun _ => made) w) in *.
  assert (disk w1 !! PathStr.parent target = Some Dir) as Hd.
  { simpl. apply lookup_insert_eq. }
  destruct (transfer_exits (PathStr.parent target) url target known_hash d pooch w1 Hd)
    as (r & d1 & -> & Hinst).
  fold tmp in Hinst. fold t in Hinst. simpl.
  assert (disk w1 !! target <> Some Dir) as Hnotdir1.
  { simpl. unfold made. rewrite mkdirs_lookup_notin; [done|].
    intros Hq. by apply (Habove target Hq). }
  clearbody tmp t.
  inversion Hinst; subst; try congruence.
  split; [done|]. split; [done|].
  intros q Hq. rewrite lookup_insert_ne by (apply not_eq_sym; by apply Habove).
  by apply mkdirs_lookup_in.
Qed.

(** What the preparation of the parent directory can change: it makes
    directories where nothing was. *)
Lemma mkdirs_files (ps : list string) (d : gmap string Node) (q c : string) :
  (forall q' c', d !! q' = Some (File c') -> q' ∉ ps) ->
  mkdirs ps d !! q = Some (File c) <-> d !! q = Some (File c).
Proof.
  intros Hfiles. destruct (decide (q ∈ ps)) as [Hin|Hout].
  - rewrite mkdirs_lookup_in by done. split; [done|].
    intros Hq. by apply Hfiles in Hq.
  - by rewrite mkdirs_lookup_notin.
Qed.

Lemma ensure_parent_keeps (dir : string) (w w1 : World) (r : Result unit) :
  (e <~ path_exists dir ;
   if negb e then os_makedirs dir false else ret tt) w = (r, w1) ->
  forall q,
    (forall c, disk w1 !! q = Some (File c) <-> disk w !! q = Some (File c)) /\
    (disk w !! q = Some Dir -> disk w1 !! q = Some Dir) /\
    (q ∉ dir :: PathStr.ancestors dir -> disk w1 !! q = disk w !! q).
Proof.
  unfold bind, path_exists, gets. simpl.
  destruct (exists_on_disk w dir); simpl.
  { intros [= <- <-]. done. }
  destruct (os_makedirs_cases dir false w) as [->|[[-> _]|[-> Hfiles]]];
    intros [= <- <-]; try done.
  intros q. split; [|split].
  - intros c. cbn [disk set_disk]. by apply mkdirs_files.
  - intros Hq. cbn [disk set_disk].
    destruct (decide (q ∈ dir :: PathStr.ancestors dir)).
    + by apply mkdirs_lookup_in.
    + by rewrite mkdirs_lookup_notin.
  - intros Hq. cbn [disk set_disk]. by apply mkdirs_lookup_notin.
Qed.

Lemma os_makedirs_keeps (p : string) (ok : bool) (w w1 : World) (r : Result unit) :
  os_makedirs p ok w = (r, w1) ->
  forall q,
    (forall c, disk w1 !! q = Some (File c) <-> disk w !! q = Some (File c)) /\
    (disk w !! q = Some Dir -> disk w1 !! q = Some Dir).
Proof.
  destruct (os_makedirs_cases p ok w) as [->|[[-> _]|[-> Hfiles]]];
    intros [= <- <-]; try done.
  intros q. split.
  - intros c. cbn [disk set_disk]. by apply mkdirs_files.
  - intros Hq. cbn [disk set_disk].
    destruct (decide (q ∈ p :: PathStr.ancestors p)).
    + by apply mkdirs_lookup_in.
    + by rewrite mkdirs_lookup_notin.
Qed.

Lemma install_exit_frame (d0 d1 : gmap string Node) (tmp fname : string)
    (kh : option string) (t : Transfer) (r : Result unit) (q : string) :
  install_exit d0 tmp fname kh t r d1 ->
  d0 !! fname <> Some Dir -> q <> fname -> d1 !! q = d0 !! q.
Proof.
  intros Hinst Hdir Hq. inversion Hinst; subst; try done.
  by rewrite lookup_insert_ne.
Qed.

(** A [stream_download] to a target that is not a directory changes no
    regular file but the target and removes no directory. *)
Lemma stream_download_frame (w w' : World) (url target : string)
    (kh : option string) (d : Downloader) (pooch : option Pooch)
    (r : Result unit) (q : string) :
  stream_download url target kh d pooch w = (r, w') ->
  target <> EmptyString ->
  disk w !! target <> Some Dir ->
  q <> target ->
  (forall c, disk w' !! q = Some (File c) <-> disk w !! q = Some (File c)) /\
  (disk w !! q = Some Dir -> disk w' !! q = Some Dir).
Proof.
  intros Hrun Hne Hnotdir Hq. unfold stream_download in Hrun.
  rewrite <- bind_assoc in Hrun.
  destruct ((e <~ path_exists (PathStr.parent target) ;
             if negb e then os_makedirs (PathStr.parent target) false else ret tt) w)
    as [[[]|e] w1] eqn:Hprep.
  - rewrite (bind_run_ok _ _ _ _ _ Hprep) in Hrun.
    pose proof (ensure_parent_keeps _ _ _ _ Hprep) as Hkeep.
    assert (disk w1 !! target <> Some Dir) as Hnotdir1.
    { rewrite (proj2 (proj2 (Hkeep target))); [done|].
      intros Hx. by apply (target_not_above target target Hne Hx). }
    destruct (decide (disk w1 !! PathStr.parent target = Some Dir)) as [Hd|Hd].
    + destruct (transfer_exits (PathStr.parent target) url target kh d pooch w1 Hd)
        as (r' & d1 & Hrun' & Hinst).
      rewrite Hrun' in Hrun. injection Hrun as <- <-. simpl.
      rewrite (install_exit_frame _ _ _ _ _ _ _ q Hinst Hnotdir1 Hq).
      destruct (Hkeep q) as (? & ? & _). done.
    + rewrite transfer_unavailable in Hrun by done. injection Hrun as <- <-.
      destruct (Hkeep q) as (? & ? & _). done.
  - rewrite (bind_run_err _ _ _ _ _ Hprep) in Hrun. injection Hrun as <- <-.
    destruct (ensure_parent_keeps _ _ _ _ Hprep q) as (? & ? & _). done.
Qed.

(** X9: [fetch] changes no file but its target.  Without a processor, and
    on every exit, a path other than the target holds a regular file with
    some content after [fetch] exactly when it did before: no other file is
    written, replaced or removed, and no temporary file is left; and every
    directory is still a directory. *)
Theorem fetch_changes_only_target (w : World) (fname : string)
    (downloader : option Downloader) (q : string) :
  q <> fetch_target w fname ->
  (forall c, disk (after (fetch fname None downloader) w) !! q = Some (File c)
             <-> disk w !! q = Some (File c)) /\
  (disk w !! q = Some Dir ->
   disk (after (fetch fname None downloader) w) !! q = Some Dir).
Proof.
  intros Hq.
  pose proof (fetch_exits w fname None downloader) as Hexit.
  unfold outcome, after in *.
  destruct (fetch fname None downloader w) as [r0 w']. simpl in *.
  inversion Hexit as [Hreg'|kh e' Hreg' Hmk|kh w1 e' Hreg' Hmk Hex Hhash
                      |kh w1 r w2 Hreg' Hmk Hex Hhash Hdel
                      |kh w1 action verb d w3 e' w4 Hreg' Hmk Hneed Hsel Hstream
                      |kh w1 action verb d w3 w4 r w5 Hreg' Hmk Hneed Hsel Hstream Hdel];
    subst; try done.
  - by apply (os_makedirs_keeps _ _ _ _ _ Hmk q).
  - injection Hdel as _ <-. by apply (os_makedirs_keeps _ _ _ _ _ Hmk q).
  - destruct (os_makedirs_keeps _ _ _ _ _ Hmk q) as [Hf1 Hd1].
    apply select_downloader_calls in Hsel as (Hdisk3 & _). simpl in Hdisk3.
    destruct (needs_transfer_target _ _ _ _ _ Hneed) as [Hnotdir _].
    rewrite <- Hdisk3 in Hnotdir, Hf1, Hd1.
    destruct (stream_download_frame _ _ _ _ _ _ _ _ q Hstream
                (join_not_empty _ _) Hnotdir Hq) as [Hf4 Hd4].
    split; [intros c; by rewrite Hf4|auto].
  - injection Hdel as _ <-.
    destruct (os_makedirs_keeps _ _ _ _ _ Hmk q) as [Hf1 Hd1].
    apply select_downloader_calls in Hsel as (Hdisk3 & _). simpl in Hdisk3.
    destruct (needs_transfer_target _ _ _ _ _ Hneed) as [Hnotdir _].
    rewrite <- Hdisk3 in Hnotdir, Hf1, Hd1.
    destruct (stream_download_frame _ _ _ _ _ _ _ _ q Hstream
                (join_not_empty _ _) Hnotdir Hq) as [Hf4 Hd4].
    split; [intros c; by rewrite Hf4|auto].
Qed.

(** X10: [fetch] announces a transfer before it attempts it.  When the
    name is registered, [os.makedirs] has found or made the storage folder
    and the action then resolves to [download] or [update], the first thing
    the run adds to the log is the line of [fetch] with the verb of the
    action, the file name, its URL and the storage folder, whether the
    transfer then succeeds or fails. *)
Theorem fetch_logs_transfer_first (w : World) (fname : string)
    (processor : option Processor) (downloader : option Downloader)
    (known_hash : option string) (action verb : string) :
  registry (self w) !! fname = Some known_hash ->
  outcome (os_makedirs (fetch_root w) true) w = Ok tt ->
  outcome (download_action (fetch_target w fname) known_hash)
    (after (os_makedirs (fetch_root w) true) w) = Ok (action, verb) ->
  in_tuple action ["download"; "update"] = true ->
  exists rest,
    logs (after (fetch fname processor downloader) w)
    = logs w ++ fetch_message verb fname (fetch_url w fname) (fetch_root w) :: rest.
Proof.
  intros Hreg Hstorage Hact Hin.
  pose proof (download_action_transfer _ _ _ _ _ Hact Hin) as Hneed.
  pose proof (fetch_exits w fname processor downloader) as Hexit.
  unfold outcome at 1 in Hstorage. unfold after at 1 in Hneed. clear Hact.
  destruct (os_makedirs (fetch_root w) true w) as [r1 w1] eqn:Hmk.
  cbn [fst snd] in Hstorage, Hneed. subst r1.
  pose proof (os_makedirs_ok _ _ _ Hmk) as (_ & Hlogs1 & _).
  unfold outcome, after in Hexit |- *.
  destruct (fetch fname processor downloader w) as [r0 w']. cbn [fst snd] in Hexit |- *.
  assert (forall msg d w3 kh r w4,
    select_downloader downloader (fetch_url w fname)
      (set_logs (fun l => l ++ [msg]) w1) = (d, w3) ->
    stream_download (fetch_url w fname) (fetch_target w fname) kh d
      (Some (self w)) w3 = (r, w4) ->
    exists rest, logs w4 = logs w ++ msg :: rest) as Hcore.
  { intros msg d w3 kh r w4 Hsel Hstream.
    apply select_downloader_world in Hsel as (_ & _ & Hlogs3 & _). simpl in Hlogs3.
    rewrite Hlogs1 in Hlogs3.
    pose proof (stream_download_exits w3 (fetch_url w fname) (fetch_target w fname)
                  kh d (Some (self w))) as Hs.
    unfold outcome, after in Hs. rewrite Hstream in Hs. simpl in Hs.
    inversion Hs; subst; simpl.
    - exists []. by rewrite Hlogs3.
    - eexists. rewrite Hlogs3. by rewrite <- app_assoc. }
  assert (forall w4 action' r w5,
    deliver processor (fetch_target w fname) action' w4 = (r, w5) ->
    logs w5 = logs w4) as Hdeliver.
  { intros w4 action' r w5 Hdel.
    pose proof (deliver_silent processor (fetch_target w fname) action' w4) as [Hl _].
    unfold after in Hl. by rewrite Hdel in Hl. }
  inversion Hexit as [Hreg'|kh e' Hreg' Hmk'|kh w1' e' Hreg' Hmk' Hex Hhash
                      |kh w1' r w2 Hreg' Hmk' Hex Hhash Hdel
                      |kh w1' action' verb' d w3 e' w4 Hreg' Hmk' Hneed' Hsel Hstream
                      |kh w1' action' verb' d w3 w4 r w5 Hreg' Hmk' Hneed' Hsel Hstream Hdel];
    subst; try congruence.
  all: rewrite Hmk in Hmk'; injection Hmk' as <-.
  all: assert (kh = known_hash) as -> by congruence.
  - destruct Hneed as [(? & _)|(_ & ? & _)]; congruence.
  - destruct Hneed as [(? & _)|(_ & ? & _)]; congruence.
  - destruct (needs_transfer_unique _ _ _ _ _ _ _ Hneed Hneed') as [<- <-].
    by apply (Hcore _ _ _ _ _ _ Hsel Hstream).
  - destruct (needs_transfer_unique _ _ _ _ _ _ _ Hneed Hneed') as [<- <-].
    rewrite (Hdeliver _ _ _ _ Hdel).
    by apply (Hcore _ _ _ _ _ _ Hsel Hstream).
Qed.

(** ** [Pooch.__init__]: what is shared and what is copied *)

Lemma fresh_dict_missing {A} (m : gmap nat A) : m !! fresh (dom m) = None.
Proof. apply not_elem_of_dom, is_fresh. Qed.

(** X14: the registry of a Pooch is the caller's dictionary.  Two Pooches
    made with the same registry dictionary share it: once one of them has
    read a registry file, the caller's dictionary holds the entries and the
    other Pooch has them too, while the URLs read from the file stay with
    the Pooch that read it. *)
Theorem Pooch_init_shares_registry (st : Store) (w : World) (r : nat)
    (path1 base1 path2 base2 : string) (fname : FileArg) :
  is_Some (registry_dicts st !! r) ->
  let '(p1, st1) := Pooch_init path1 base1 (Some r) None st in
  let '(p2, st2) := Pooch_init path2 base2 (Some r) None st1 in
  let st3 := (on_instance p1 (load_registry fname) (st2, w)).2.1 in
  registry_dicts st3 !! r = Some (registry (instance_view p1 st3)) /\
  registry (instance_view p2 st3) = registry (instance_view p1 st3) /\
  registry (instance_view p1 st3)
    = registry (self (after (load_registry fname)
                        (set_self (fun _ => instance_view p1 st2) w))) /\
  urls (instance_view p2 st3) = ∅.
Proof.
  intros [reg Hr]. unfold Pooch_init, copy_url_dict. simpl.
  set (u1 := fresh (dom (url_dicts st))).
  set (u2 := fresh (dom (<[u1 := ∅]> (url_dicts st)))).
  assert (u2 <> u1) as Hne.
  { intros E. pose proof (fresh_dict_missing (<[u1 := (∅ : gmap string string)]> (url_dicts st))) as H.
    fold u2 in H. rewrite E, lookup_insert_eq in H. done. }
  unfold on_instance, after. simpl.
  destruct (load_registry fname _) as [res w'] eqn:Hrun. simpl.
  unfold instance_view. simpl.
  rewrite !lookup_insert_eq. simpl.
  split; [done|]. split; [done|]. split; [done|].
  rewrite lookup_insert_ne by done. by rewrite lookup_insert_eq.
Qed.

(** X15: the URLs of a Pooch are its own.  The dictionary given as
    [urls] is copied: the Pooch starts with its entries, and reading a
    registry file with URLs changes neither the caller's dictionary nor a
    second Pooch made from it.  A Pooch made without a registry gets a new
    dictionary that no earlier reference names. *)
Theorem Pooch_init_copies_urls (st : Store) (w : World) (u : nat)
    (path1 base1 path2 base2 : string) (fname : FileArg) :
  is_Some (url_dicts st !! u) ->
  let '(p1, st1) := Pooch_init path1 base1 None (Some u) st in
  let '(p2, st2) := Pooch_init path2 base2 None (Some u) st1 in
  let st3 := (on_instance p1 (load_registry fname) (st2, w)).2.1 in
  urls (instance_view p1 st2) = default ∅ (url_dicts st !! u) /\
  url_dicts st3 !! u = url_dicts st !! u /\
  urls (instance_view p2 st3) = default ∅ (url_dicts st !! u) /\
  registry (instance_view p2 st3) = ∅ /\
  registry_dicts st !! self_registry p1 = None /\
  self_registry p2 <> self_registry p1.
Proof.
  intros [entries Hu]. unfold Pooch_init, new_registry_dict, copy_url_dict. simpl.
  set (r1 := fresh (dom (registry_dicts st))).
  set (u1 := fresh (dom (url_dicts st))).
  assert (u1 <> u) as Hu1.
  { intros E. pose proof (fresh_dict_missing (url_dicts st)) as H.
    fold u1 in H. rewrite E in H. congruence. }
  rewrite (lookup_insert_ne (url_dicts st) u1 u) by done. rewrite Hu. simpl.
  set (r2 := fresh (dom (<[r1 := ∅]> (registry_dicts st)))).
  set (u2 := fresh (dom (<[u1 := entries]> (url_dicts st)))).
  assert (r2 <> r1) as Hr.
  { intros E. pose proof (fresh_dict_missing (<[r1 := (∅ : gmap string (option string))]> (registry_dicts st))) as H.
    fold r2 in H. rewrite E, lookup_insert_eq in H. done. }
  assert (u2 <> u1) as Hu2.
  { intros E. pose proof (fresh_dict_missing (<[u1 := entries]> (url_dicts st))) as H.
    fold u2 in H. rewrite E, lookup_insert_eq in H. done. }
  assert (u2 <> u) as Hu2'.
  { intros E. pose proof (fresh_dict_missing (<[u1 := entries]> (url_dicts st))) as H.
    fold u2 in H. rewrite E, lookup_insert_ne in H by done. congruence. }
  unfold on_instance. simpl.
  destruct (load_registry fname _) as [res w'] eqn:Hrun. simpl.
  unfold instance_view. simpl.
  split.
  { rewrite lookup_insert_ne by done. by rewrite lookup_insert_eq. }
  split.
  { rewrite !lookup_insert_ne by done. done. }
  split.
  { rewrite lookup_insert_ne by done. by rewrite lookup_insert_eq. }
  split.
  { rewrite lookup_insert_ne by done. by rewrite lookup_insert_eq. }
  split; [apply fresh_dict_missing|done].
Qed.


(** X16: the processor runs on the installed file.  When [fetch] with a
    processor returns, the processor was called on a disk where the target
    exists and is accepted by the comparison against the registered hash,
    after the download if there was one, and [fetch] returns what the
    processor returned and leaves the disk the processor left.  The name is
    assumed not to have the form of a temporary file's. *)
Theorem fetch_processor_after_install (w : World) (fname : string)
    (p : Processor) (downloader : option Downloader) (v : Value) :
  outcome (fetch fname (Some p) downloader) w = Ok v ->
  PathStr.strip_prefix (temp_prefix (PathStr.parent (fetch_target w fname)))
    (fetch_target w fname) = None ->
  exists known_hash action w4,
    registry (self w) !! fname = Some known_hash /\
    exists_on_disk w4 (fetch_target w fname) = true /\
    outcome (hash_matches (fetch_target w fname) known_hash false) w4 = Ok true /\
    proc_call p (fetch_target w fname) action (self w) (disk w4)
      = (disk (after (fetch fname (Some p) downloader) w), Ok v).
Proof.
  intros Hok Hname.
  pose proof (fetch_exits w fname (Some p) downloader) as Hexit.
  rewrite Hok in Hexit.
  inversion Hexit as [| | |kh w1 r w2 Hreg Hmk Hex Hhash Hdel
                      | |kh w1 action verb d w3 w4 r w5 Hreg Hmk Hneed Hsel Hstream Hdel];
    subst.
  - apply os_makedirs_ok in Hmk as (Hself & _).
    simpl in Hdel. unfold call_processor in Hdel. rewrite Hself in Hdel.
    destruct (proc_call p (fetch_target w fname) "fetch" (self w) (disk w1))
      as [fs r] eqn:Hp.
    injection Hdel as -> Hw. rewrite <- Hw. simpl.
    exists kh, "fetch", w1. by rewrite Hp.
  - apply os_makedirs_ok in Hmk as (Hself & _).
    apply select_downloader_world in Hsel as (Hself3 & Hdisk3 & _).
    simpl in Hself3, Hdisk3.
    destruct (needs_transfer_target _ _ _ _ _ Hneed) as [Hnotdir Hwhat].
    apply stream_download_installs in Hstream
      as (tmp & Hraised & Hcheck & Hfile & Hself4 & _ & _).
    + assert (file_content w4 (fetch_target w fname)
              = Some (written (dl_call d (fetch_url w fname) tmp (Some (self w))))) as Hc.
      { unfold file_content. by rewrite Hfile. }
      simpl in Hdel. unfold call_processor in Hdel.
      assert (self w4 = self w) as Hself' by congruence. rewrite Hself' in Hdel.
      destruct (proc_call p (fetch_target w fname) action (self w) (disk w4))
        as [fs r] eqn:Hp.
      injection Hdel as -> Hw. rewrite <- Hw. simpl.
      exists kh, action, w4. split; [done|]. split.
      * unfold exists_on_disk. rewrite Hfile. by apply bool_decide_eq_true_2.
      * split; [|by rewrite Hp].
        unfold outcome. by rewrite (hash_matches_content _ _ _ _ _ Hc).
    + apply join_not_empty.
    + by rewrite Hdisk3.
    + rewrite Hdisk3. destruct Hwhat as [Hnone|[c Hc]]; [by right|left; congruence].
Qed.

(** X17: a regular file where the storage folder should be.  For a
    registered name [fetch] then fails with an [IOFailure] on the folder
    when it tries to make it, before anything is resolved, logged or
    downloaded: the world is as it was. *)
Theorem fetch_storage_is_a_file (w : World) (fname : string)
    (processor : option Processor) (downloader : option Downloader)
    (known_hash : option string) (c : string) :
  registry (self w) !! fname = Some known_hash ->
  disk w !! fetch_root w = Some (File c) ->
  fetch fname processor downloader w = (Err (IOFailure (fetch_root w)), w).
Proof.
  intros Hreg Hroot. unfold fetch.
  rewrite (bind_run_ok _ _ _ _ _ (assert_file_in_registry_ok _ _ _ Hreg)).
  rewrite (bind_run_ok abspath _ w w (fetch_root w)) by done.
  assert (os_makedirs (fetch_root w) true w = (Err (IOFailure (fetch_root w)), w)) as Hmk.
  { unfold os_makedirs, is_dir. rewrite Hroot.
    rewrite bool_decide_eq_false_2 by done.
    cbn [existsb]. unfold is_file at 1, file_content. rewrite Hroot.
    by rewrite bool_decide_eq_true_2 by eauto. }
  by rewrite (bind_run_err _ _ _ _ _ Hmk).
Qed.

End PoochCore.

(** ** The claims on the sample installation *)

Abbreviation sample_fetch :=
  (fetch Sample.digest Sample.abspath Sample.remote Sample.remote).


(** The temporary file of that run. *)
Example fetch_temporary_sample :
  fetch_temporary Sample.abspath sample_nested_world "tmpdata.csv" = "/cache/tmp0".
Proof. vm_compute. reflexivity. Qed.

(** C4 on the sample: a name that is not registered, with a file of that
    name in the cache all the same. *)
Lemma fetch_not_in_registry_witness :
  outcome (sample_fetch "this-file-does-not-exist.csv" None None)
    (mkWorld Sample.pup
       (<["/cache/this-file-does-not-exist.csv" := File "x"]> ∅) [] [])
  = Err (NotInRegistry "this-file-does-not-exist.csv").
Proof.
  apply (fetch_not_in_registry Sample.digest Sample.abspath Sample.remote Sample.remote).
  vm_compute. reflexivity.
Defined.

(** C9 on the sample. *)
Lemma fetch_not_in_registry_no_effect_witness :
  after (sample_fetch "this-file-does-not-exist.csv" None None) Sample.fresh_world
    = Sample.fresh_world
  /\ disk (after (sample_fetch "this-file-does-not-exist.csv" None None) Sample.fresh_world)
       !! fetch_root Sample.abspath Sample.fresh_world
     = disk Sample.fresh_world !! fetch_root Sample.abspath Sample.fresh_world
  /\ new_calls Sample.fresh_world
       (after (sample_fetch "this-file-does-not-exist.csv" None None) Sample.fresh_world) = []
  /\ logs (after (sample_fetch "this-file-does-not-exist.csv" None None) Sample.fresh_world)
     = logs Sample.fresh_world
  /\ self (after (sample_fetch "this-file-does-not-exist.csv" None None) Sample.fresh_world)
     = self Sample.fresh_world.
Proof.
  apply (fetch_not_in_registry_no_effect Sample.digest Sample.abspath Sample.remote
           Sample.remote Sample.fresh_world "this-file-does-not-exist.csv" None None).
  vm_compute. reflexivity.
Defined.

(** C3 as first stated fails: [odd.txt] exists and its hash spec names the
    algorithm [blah], which the digest library does not know; the lenient
    comparison raises, and so does [download_action], where the claim has it
    return [fetch]. *)
Lemma download_action_not_as_claimed :
  ~ download_action_as_claimed Sample.digest.
Proof.
  intros H.
  specialize (H Sample.stale_world "/cache/odd.txt" (Some "blah:1234")).
  vm_compute in H. discriminate H.
Qed.

(** What the code does there. *)
Lemma download_action_unsupported_algorithm :
  download_action Sample.digest "/cache/odd.txt" (Some "blah:1234") Sample.stale_world
  = (Err (UnsupportedAlgorithm "blah"), Sample.stale_world).
Proof. vm_compute. reflexivity. Qed.

(** C2 on the sample: [bad.txt] is in the cache, the remote serves [hello],
    whose digest is not the registered one; the update fails and the cached
    file is still there. *)
Lemma fetch_hash_mismatch_keeps_target_witness :
  outcome (sample_fetch "bad.txt" None None) Sample.stale_world
    = Err (HashMismatch (Sample.sha "hello") "abother") /\
  disk (after (sample_fetch "bad.txt" None None) Sample.stale_world) !! "/cache/tmp0" = None /\
  disk (after (sample_fetch "bad.txt" None None) Sample.stale_world)
    !! fetch_target Sample.abspath Sample.stale_world "bad.txt"
    = disk Sample.stale_world !! fetch_target Sample.abspath Sample.stale_world "bad.txt" /\
  (forall c,
     c ∈ new_calls Sample.stale_world
           (after (sample_fetch "bad.txt" None None) Sample.stale_world) ->
     is_processor_call c = false).
Proof.
  apply (fetch_hash_mismatch_keeps_target Sample.digest Sample.abspath Sample.remote
           Sample.remote Sample.stale_world "bad.txt" None None
           "sha256:abother" "sha256" "abother" Sample.sha
           "HTTPDownloader" "http://data.example/bad.txt" "/cache/tmp0"
           (Some Sample.pup) Sample.served).
  - vm_compute. reflexivity.
  - discriminate.
  - vm_compute. reflexivity.
  - vm_compute. reflexivity.
  - assert (new_calls Sample.stale_world
              (after (sample_fetch "bad.txt" None None) Sample.stale_world)
            = [CallChooseDownloader "http://data.example/bad.txt";
               CallDownloader "HTTPDownloader" "http://data.example/bad.txt"
                 "/cache/tmp0" (Some Sample.pup) Sample.served]) as ->.
    { vm_compute. reflexivity. }
    apply list_elem_of_further, list_elem_of_here.
  - reflexivity.
  - vm_compute. reflexivity.
Defined.

(** C5 on the sample: [data.txt] is cached and accepted; and the world a
    first download leaves is one where a second fetch changes nothing. *)
Lemma fetch_only_is_silent_witness :
  (sample_fetch "data.txt" None None Sample.cached_world
     = (Ok (VStr "/cache/data.txt"), Sample.cached_world) /\
   logs (after (sample_fetch "data.txt" (Some Sample.unpack) None) Sample.cached_world)
     = logs Sample.cached_world /\
   filter (fun c => is_processor_call c = false)
     (new_calls Sample.cached_world
        (after (sample_fetch "data.txt" (Some Sample.unpack) None) Sample.cached_world)) = [])
  /\
  sample_fetch "data.txt" None None
    (after (sample_fetch "data.txt" None None) Sample.fresh_world)
  = (Ok (VStr "/cache/data.txt"),
     after (sample_fetch "data.txt" None None) Sample.fresh_world).
Proof.
  split.
  - apply (proj1 (fetch_only_is_silent Sample.digest Sample.abspath Sample.remote
                    Sample.remote Sample.cached_world "data.txt"
                    (Some Sample.unpack) None) (Some "sha256:abhello")).
    + vm_compute. reflexivity.
    + vm_compute. reflexivity.
    + vm_compute. reflexivity.
  - apply (proj2 (fetch_only_is_silent Sample.digest Sample.abspath Sample.remote
                    Sample.remote
                    (after (sample_fetch "data.txt" None None) Sample.fresh_world)
                    "data.txt" None None)
             Sample.fresh_world None (VStr "/cache/data.txt")).
    + vm_compute. reflexivity.
    + intros _. vm_compute. discriminate.
    + reflexivity.
Defined.

(** C7 on the sample: an older [data.txt] is in the cache; the processor is
    called once, after the update, and is told so. *)
Lemma fetch_calls_processor_once_witness :
  exists known_hash action verb,
    registry (self sample_outdated_cache) !! "data.txt" = Some known_hash /\
    outcome (download_action Sample.digest
               (fetch_target Sample.abspath sample_outdated_cache "data.txt") known_hash)
      (after (os_makedirs (fetch_root Sample.abspath sample_outdated_cache) true)
         sample_outdated_cache) = Ok (action, verb) /\
    action ∈ ["download"; "update"; "fetch"] /\
    filter (fun c => is_processor_call c = true)
      (new_calls sample_outdated_cache
         (after (sample_fetch "data.txt" (Some Sample.unpack) None) sample_outdated_cache))
    = [CallProcessor (proc_name Sample.unpack)
         (fetch_target Sample.abspath sample_outdated_cache "data.txt") action
         (self sample_outdated_cache) (Ok (VList ["/cache/data.txt"]))] /\
    exists dk,
      (proc_call Sample.unpack
         (fetch_target Sample.abspath sample_outdated_cache "data.txt") action
         (self sample_outdated_cache) dk).2 = Ok (VList ["/cache/data.txt"]).
Proof.
  apply (fetch_calls_processor_once Sample.digest Sample.abspath Sample.remote
           Sample.remote sample_outdated_cache "data.txt" Sample.unpack None
           (VList ["/cache/data.txt"])).
  vm_compute. reflexivity.
Defined.

(** The action on record there is the one [download_action] resolved. *)
Example fetch_processor_action_sample :
  new_calls sample_outdated_cache
    (after (sample_fetch "data.txt" (Some Sample.unpack) None) sample_outdated_cache)
  = [CallChooseDownloader "http://data.example/data.txt";
     CallDownloader "HTTPDownloader" "http://data.example/data.txt" "/cache/tmp0"
       (Some Sample.pup) Sample.served;
     CallProcessor "unpack" "/cache/data.txt" "update" Sample.pup
       (Ok (VList ["/cache/data.txt"]))].
Proof. vm_compute. reflexivity. Qed.

(** C8 as first stated fails: [sub/data.txt] is to be downloaded and the
    caller brings a downloader, but a regular file sits where the folder
    [sub] is to go; [stream_download] fails on that folder before any
    downloader is called. *)
Lemma explicit_downloader_not_as_claimed :
  ~ explicit_downloader_as_claimed Sample.digest Sample.abspath Sample.remote
      Sample.remote.
Proof.
  intros H.
  destruct (H sample_blocked_world "sub/data.txt" None Sample.mirror
              (Some "sha256:abhello") "download" "Downloading")
    as (output_file & pup & t & Hin).
  - vm_compute. reflexivity.
  - vm_compute. reflexivity.
  - vm_compute. reflexivity.
  - reflexivity.
  - assert (new_calls sample_blocked_world
              (after (sample_fetch "sub/data.txt" None (Some Sample.mirror))
                 sample_blocked_world) = []) as Hnone
      by (vm_compute; reflexivity).
    rewrite Hnone in Hin. by apply elem_of_nil in Hin.
Qed.

(** What the code does there. *)
Example fetch_blocked_folder :
  outcome (sample_fetch "sub/data.txt" None (Some Sample.mirror)) sample_blocked_world
  = Err (IOFailure "/cache/sub").
Proof. vm_compute. reflexivity. Qed.

(** C8 on the sample: a first download of [sub/data.txt] with a downloader
    of the caller's, into storage of which nothing exists yet: [fetch] makes
    [/cache], [stream_download] makes [/cache/sub], and the downloader
    given is the one call of the run. *)
Lemma fetch_explicit_downloader_wins_witness :
  filter (fun c => is_processor_call c = false)
    (new_calls sample_nested_world
       (after (sample_fetch "sub/data.txt" None (Some Sample.mirror)) sample_nested_world))
  = [CallDownloader "mirror" "http://data.example/sub/data.txt" "/cache/sub/tmp0"
       (Some sample_nested_pup)
       (mkTransfer "hello" ["downloader executed"] None)].
Proof.
  pose proof (proj2 (proj2 (fetch_explicit_downloader_wins Sample.digest Sample.abspath
                         Sample.remote Sample.remote sample_nested_world "sub/data.txt"
                         None (Some Sample.mirror)))
           Sample.mirror (Some "sha256:abhello") "download" "Downloading") as H.
  assert (parent_ready
            (after (os_makedirs (fetch_root Sample.abspath sample_nested_world) true)
               sample_nested_world)
            (fetch_target Sample.abspath sample_nested_world "sub/data.txt") = true)
    as Hready by (vm_compute; reflexivity).
  rewrite Hready in H.
  assert (fetch_temporary Sample.abspath sample_nested_world "sub/data.txt"
          = "/cache/sub/tmp0") as Htmp by (vm_compute; reflexivity).
  rewrite Htmp in H.
  apply H.
  - reflexivity.
  - vm_compute. reflexivity.
  - vm_compute. reflexivity.
  - vm_compute. reflexivity.
  - reflexivity.
Defined.

(** C6 as first stated fails: a directory is at the target path; the
    downloader is called on [/cache/tmp0], its bytes are accepted, and the
    call returns with the directory still at the target path and the file
    inside it. *)
Lemma stream_download_not_as_claimed :
  ~ stream_download_as_claimed Sample.digest.
Proof.
  intros H.
  destruct (H sample_directory_target "http://data.example/data.txt" "/cache/data.txt"
              (Some "sha256:abhello") Sample.mirror None
              "mirror" "http://data.example/data.txt" "/cache/tmp0" None
              (mkTransfer "hello" ["downloader executed"] None)) as [_ Hmoved].
  - assert (new_calls sample_directory_target
              (after (stream_download Sample.digest "http://data.example/data.txt"
                        "/cache/data.txt" (Some "sha256:abhello") Sample.mirror None)
                 sample_directory_target)
            = [CallDownloader "mirror" "http://data.example/data.txt" "/cache/tmp0" None
                 (mkTransfer "hello" ["downloader executed"] None)]) as ->
      by (vm_compute; reflexivity).
    apply list_elem_of_here.
  - assert (outcome (stream_download Sample.digest "http://data.example/data.txt"
                       "/cache/data.txt" (Some "sha256:abhello") Sample.mirror None)
              sample_directory_target = Ok tt) as Hok by (vm_compute; reflexivity).
    specialize (Hmoved Hok). vm_compute in Hmoved. discriminate Hmoved.
Qed.

(** What the code does there. *)
Example stream_download_into_directory :
  let w' := after (stream_download Sample.digest "http://data.example/data.txt"
                     "/cache/data.txt" (Some "sha256:abhello") Sample.mirror None)
              sample_directory_target in
  disk w' !! "/cache/data.txt" = Some Dir /\
  disk w' !! "/cache/data.txt/tmp0" = Some (File "hello") /\
  disk w' !! "/cache/tmp0" = None.
Proof. vm_compute. done. Qed.

(** C6 on the sample: a download into an empty storage folder. *)
Lemma stream_download_temporary_file_gone_witness :
  let run := stream_download Sample.digest "http://data.example/data.txt"
               "/cache/data.txt" (Some "sha256:abhello") Sample.mirror None in
  new_calls sample_empty_cache (after run sample_empty_cache)
    = [CallDownloader "mirror" "http://data.example/data.txt" "/cache/tmp0" None
         (mkTransfer "hello" ["downloader executed"] None)] /\
  disk (after run sample_empty_cache) !! "/cache/tmp0" = None /\
  outcome run sample_empty_cache = Ok tt /\
  disk (after run sample_empty_cache)
    = <["/cache/data.txt" := File "hello"]> (disk sample_empty_cache).
Proof.
  pose proof (stream_download_temporary_file_gone Sample.digest sample_empty_cache
                "http://data.example/data.txt" "/cache/data.txt"
                (Some "sha256:abhello") Sample.mirror None) as H.
  cbv zeta in H.
  assert (parent_ready sample_empty_cache "/cache/data.txt" = true) as Hready
    by (vm_compute; reflexivity).
  rewrite Hready in H.
  assert (stream_temporary sample_empty_cache "/cache/data.txt" = "/cache/tmp0") as Htmp
    by (vm_compute; reflexivity).
  rewrite Htmp in H.
  assert (prepared_disk sample_empty_cache "/cache/data.txt" = disk sample_empty_cache)
    as Hdisk by (vm_compute; reflexivity).
  rewrite Hdisk in H.
  destruct H as (_ & _ & _ & _ & Hcalls & Hgone & Hexit).
  cbn [Sample.mirror dl_call raised written] in Hexit.
  change (content_check Sample.digest "hello" (Some "sha256:abhello") true)
    with (@Ok bool true) in Hexit.
  cbv iota in Hexit.
  rewrite bool_decide_eq_false_2 in Hexit by (vm_compute; discriminate).
  rewrite bool_decide_eq_false_2 in Hexit by discriminate.
  destruct Hexit as [Hok Hafter].
  cbv zeta. split; [exact Hcalls|]. split; [exact Hgone|]. split; [exact Hok|exact Hafter].
Defined.


(** ** The further properties on the sample installation *)

Abbreviation sample_is_available :=
  (is_available sample_parse_url (fun _ => None) (fun _ => None) sample_nlst sample_head).

Example os_path_dirname_sample :
  (os_path_dirname "/pub/100KB.zip", os_path_dirname "/file", os_path_dirname "file",
   os_path_dirname "a/b/")
  = ("/pub", "/", "", "a/b").
Proof. vm_compute. reflexivity. Qed.

Lemma get_url_after_load_registry_witness :
  outcome (get_url "b.txt")
    (after (load_registry (FileObject (["a.txt 12"] ++ ["b.txt 34 http://u/b"])))
       Sample.fresh_world) = Ok "http://u/b" /\
  registry (self (after (load_registry (FileObject (["a.txt 12"] ++ ["b.txt 34 http://u/b"])))
                    Sample.fresh_world)) !! "b.txt" = Some (Some "34").
Proof.
  apply (get_url_after_load_registry ["a.txt 12"] "b.txt 34 http://u/b" Sample.fresh_world).
  vm_compute. reflexivity.
Defined.

Lemma is_available_not_in_registry_witness :
  sample_is_available "nothing.zip" (sample_ftp_world, [])
  = (Err (NotInRegistry "nothing.zip"), (sample_ftp_world, [])).
Proof.
  apply (is_available_not_in_registry sample_parse_url (fun _ => None) (fun _ => None)
           sample_nlst sample_head "nothing.zip" sample_ftp_world []).
  vm_compute. reflexivity.
Defined.

Lemma is_available_ftp_closes_witness :
  exists between,
    (sample_is_available "100KB.zip" (sample_ftp_world, [])).2
      = (sample_ftp_world,
         [] ++ FtpConnect "speedtest.example" :: between ++ [FtpClose "speedtest.example"]) /\
    (between = [FtpLogin "speedtest.example"]
     \/ between = [FtpLogin "speedtest.example"; FtpNlst "speedtest.example" "/pub"]).
Proof.
  pose proof (is_available_ftp_closes sample_parse_url (fun _ => None) (fun _ => None)
                sample_nlst sample_head "100KB.zip" (Some "sha256:abzip")
                sample_ftp_world []) as H.
  destruct H as (between & Hwire & Hbetween & _).
  - vm_compute. reflexivity.
  - vm_compute. reflexivity.
  - exists between. split; [exact Hwire|exact Hbetween].
Defined.

Lemma is_available_answer_witness :
  (sample_is_available "data.txt" (Sample.fresh_world, [])).2.1 = Sample.fresh_world /\
  exists status_code,
    sample_head (fetch_url Sample.fresh_world "data.txt") = Ok status_code /\
    (true = true <-> status_code = 200%nat) /\
    (sample_is_available "data.txt" (Sample.fresh_world, [])).2.2
      = [] ++ [HttpHead (fetch_url Sample.fresh_world "data.txt")].
Proof.
  apply (is_available_answer sample_parse_url (fun _ => None) (fun _ => None)
           sample_nlst sample_head "data.txt" Sample.fresh_world [] true).
  vm_compute. reflexivity.
Defined.

Lemma fetch_transport_failure_keeps_target_witness :
  outcome (sample_fetch "data.txt" None (Some sample_broken)) sample_empty_cache
    = Err ConnectionFailure /\
  disk (after (sample_fetch "data.txt" None (Some sample_broken)) sample_empty_cache)
    !! "/cache/tmp0" = None /\
  disk (after (sample_fetch "data.txt" None (Some sample_broken)) sample_empty_cache)
    !! fetch_target Sample.abspath sample_empty_cache "data.txt"
    = disk sample_empty_cache !! fetch_target Sample.abspath sample_empty_cache "data.txt" /\
  (forall c,
     c ∈ new_calls sample_empty_cache
           (after (sample_fetch "data.txt" None (Some sample_broken)) sample_empty_cache) ->
     is_processor_call c = false).
Proof.
  apply (fetch_transport_failure_keeps_target Sample.digest Sample.abspath Sample.remote
           Sample.remote sample_empty_cache "data.txt" None (Some sample_broken)
           "broken" "http://data.example/data.txt" "/cache/tmp0" (Some Sample.pup)
           (mkTransfer "he" [] (Some ConnectionFailure)) ConnectionFailure).
  - assert (new_calls sample_empty_cache
              (after (sample_fetch "data.txt" None (Some sample_broken)) sample_empty_cache)
            = [CallDownloader "broken" "http://data.example/data.txt" "/cache/tmp0"
                 (Some Sample.pup) (mkTransfer "he" [] (Some ConnectionFailure))]) as ->.
    { vm_compute. reflexivity. }
    apply list_elem_of_here.
  - reflexivity.
Defined.

Lemma fetch_installs_witness :
  outcome (sample_fetch "data.txt" None None) sample_empty_cache
    = Ok (VStr "/cache/data.txt") /\
  disk (after (sample_fetch "data.txt" None None) sample_empty_cache)
    = <["/cache/data.txt" := File "hello"]> (disk sample_empty_cache) /\
  logs (after (sample_fetch "data.txt" None None) sample_empty_cache)
    = [] ++ ["Downloading file 'data.txt' from 'http://data.example/data.txt' to '/cache'."]
         ++ [] /\
  self (after (sample_fetch "data.txt" None None) sample_empty_cache) = Sample.pup.
Proof.
  apply (fetch_installs Sample.digest Sample.abspath Sample.remote Sample.remote
           sample_empty_cache "data.txt" None (Some "sha256:abhello")
           "download" "Downloading").
  all: vm_compute; reflexivity.
Defined.

Lemma fetch_unsupported_algorithm_witness :
  sample_fetch "odd.txt" (Some Sample.unpack) None Sample.stale_world
  = (Err (UnsupportedAlgorithm "blah"), Sample.stale_world).
Proof.
  apply (fetch_unsupported_algorithm Sample.digest Sample.abspath Sample.remote
           Sample.remote Sample.stale_world "odd.txt" (Some Sample.unpack) None
           "blah:1234" "blah" "1234").
  - vm_compute. reflexivity.
  - discriminate.
  - vm_compute. reflexivity.
  - vm_compute. reflexivity.
  - vm_compute. reflexivity.
  - vm_compute. reflexivity.
Defined.

Lemma stream_download_makes_parent_witness :
  outcome (stream_download Sample.digest "http://data.example/sub/tmpdata.csv"
             "/cache/sub/tmpdata.csv" (Some "sha256:abhello") Sample.mirror None)
    sample_empty_cache = Ok tt /\
  disk (after (stream_download Sample.digest "http://data.example/sub/tmpdata.csv"
                 "/cache/sub/tmpdata.csv" (Some "sha256:abhello") Sample.mirror None)
          sample_empty_cache) !! "/cache/sub" = Some Dir.
Proof.
  destruct (stream_download_makes_parent Sample.digest sample_empty_cache
              "http://data.example/sub/tmpdata.csv" "/cache/sub/tmpdata.csv"
              (Some "sha256:abhello") Sample.mirror None) as (Hok & _ & Hdirs).
  - discriminate.
  - vm_compute. reflexivity.
  - vm_compute. reflexivity.
  - vm_compute. discriminate.
  - vm_compute. discriminate.
  - vm_compute. reflexivity.
  - vm_compute. reflexivity.
  - split; [exact Hok|]. apply Hdirs. vm_compute. apply list_elem_of_here.
Defined.

Lemma fetch_changes_only_target_witness :
  (forall c,
     disk (after (sample_fetch "bad.txt" None None) Sample.stale_world) !! "/cache/odd.txt"
       = Some (File c)
     <-> disk Sample.stale_world !! "/cache/odd.txt" = Some (File c)) /\
  (disk Sample.stale_world !! "/cache/odd.txt" = Some Dir ->
   disk (after (sample_fetch "bad.txt" None None) Sample.stale_world) !! "/cache/odd.txt"
     = Some Dir).
Proof.
  apply (fetch_changes_only_target Sample.digest Sample.abspath Sample.remote
           Sample.remote Sample.stale_world "bad.txt" None "/cache/odd.txt").
  vm_compute. discriminate.
Defined.

Lemma fetch_logs_transfer_first_witness :
  exists rest,
    logs (after (sample_fetch "data.txt" None None) Sample.fresh_world)
    = logs Sample.fresh_world
        ++ fetch_message "Downloading" "data.txt"
             (fetch_url Sample.fresh_world "data.txt")
             (fetch_root Sample.abspath Sample.fresh_world) :: rest.
Proof.
  apply (fetch_logs_transfer_first Sample.digest Sample.abspath Sample.remote
           Sample.remote Sample.fresh_world "data.txt" None None
           (Some "sha256:abhello") "download" "Downloading").
  all: vm_compute; reflexivity.
Defined.

Lemma load_registry_only_adds_witness :
  is_Some (registry (self (after (load_registry (FileObject ["data.txt 99"; "x"]))
                             Sample.fresh_world)) !! "bad.txt").
Proof.
  apply (load_registry_only_adds (FileObject ["data.txt 99"; "x"]) Sample.fresh_world).
  vm_compute. eauto.
Defined.

Lemma Pooch_init_shares_registry_witness :
  let '(p1, st1) := Pooch_init "/a" "http://a/" (Some 0%nat) None sample_store in
  let '(p2, st2) := Pooch_init "/b" "http://b/" (Some 0%nat) None st1 in
  let st3 := (on_instance p1 (load_registry (FileObject ["new.txt 12 http://u/new"]))
                (st2, Sample.fresh_world)).2.1 in
  registry_dicts st3 !! 0%nat = Some (registry (instance_view p1 st3)) /\
  registry (instance_view p2 st3) = registry (instance_view p1 st3) /\
  registry (instance_view p1 st3)
    = registry (self (after (load_registry (FileObject ["new.txt 12 http://u/new"]))
                        (set_self (fun _ => instance_view p1 st2) Sample.fresh_world))) /\
  urls (instance_view p2 st3) = ∅.
Proof.
  apply (Pooch_init_shares_registry sample_store Sample.fresh_world 0%nat
           "/a" "http://a/" "/b" "http://b/" (FileObject ["new.txt 12 http://u/new"])).
  vm_compute. eauto.
Defined.

Lemma Pooch_init_copies_urls_witness :
  let '(p1, st1) := Pooch_init "/a" "http://a/" None (Some 0%nat) sample_store in
  let '(p2, st2) := Pooch_init "/b" "http://b/" None (Some 0%nat) st1 in
  let st3 := (on_instance p1 (load_registry (FileObject ["new.txt 12 http://u/new"]))
                (st2, Sample.fresh_world)).2.1 in
  urls (instance_view p1 st2) = default ∅ (url_dicts sample_store !! 0%nat) /\
  url_dicts st3 !! 0%nat = url_dicts sample_store !! 0%nat /\
  urls (instance_view p2 st3) = default ∅ (url_dicts sample_store !! 0%nat) /\
  registry (instance_view p2 st3) = ∅ /\
  registry_dicts sample_store !! self_registry p1 = None /\
  self_registry p2 <> self_registry p1.
Proof.
  apply (Pooch_init_copies_urls sample_store Sample.fresh_world 0%nat
           "/a" "http://a/" "/b" "http://b/" (FileObject ["new.txt 12 http://u/new"])).
  vm_compute. eauto.
Defined.

Lemma fetch_processor_after_install_witness :
  exists known_hash action w4,
    registry (self sample_empty_cache) !! "data.txt" = Some known_hash /\
    exists_on_disk w4 (fetch_target Sample.abspath sample_empty_cache "data.txt") = true /\
    outcome (hash_matches Sample.digest
               (fetch_target Sample.abspath sample_empty_cache "data.txt")
               known_hash false) w4 = Ok true /\
    proc_call Sample.unpack (fetch_target Sample.abspath sample_empty_cache "data.txt")
      action (self sample_empty_cache) (disk w4)
    = (disk (after (sample_fetch "data.txt" (Some Sample.unpack) None) sample_empty_cache),
       Ok (VList ["/cache/data.txt"])).
Proof.
  apply (fetch_processor_after_install Sample.digest Sample.abspath Sample.remote
           Sample.remote sample_empty_cache "data.txt" Sample.unpack None
           (VList ["/cache/data.txt"])).
  - vm_compute. reflexivity.
  - vm_compute. reflexivity.
Defined.

Lemma fetch_storage_is_a_file_witness :
  sample_fetch "data.txt" None None
    (mkWorld Sample.pup (<["/cache" := File "not a folder"]> ∅) [] [])
  = (Err (IOFailure "/cache"),
     mkWorld Sample.pup (<["/cache" := File "not a folder"]> ∅) [] []).
Proof.
  apply (fetch_storage_is_a_file Sample.digest Sample.abspath Sample.remote
           Sample.remote
           (mkWorld Sample.pup (<["/cache" := File "not a folder"]> ∅) [] [])
           "data.txt" None None (Some "sha256:abhello") "not a folder").
  - vm_compute. reflexivity.
  - vm_compute. reflexivity.
Defined.
